(** * A shallow embedding of the auction scraper

    The development follows the layout of the repository:

    - [Py]        the fragment of Python's [str] API the sources call
                  ([strip], [upper], [lower], [find], [rfind], slicing,
                  [split], [join], [startswith]) and Python exceptions;
    - [Schemas]   [models/schemas.py]: the pydantic models and their
                  field validators;
    - [Storage]   [scraper/storage.py]: the three relations and the SQL
                  statements issued against them;
    - [Extractor] [scraper/extractor.py]: markup windowing and response
                  cleaning;
    - [Main]      [main.py]: the [search] command's driving coroutine.

    Modelling conventions.  A Python [str] is a list of characters; the
    model covers 7-bit text, which is where [upper], [lower] and [strip]
    act as written below.  Python [int]s are [Z].  A [datetime] is a [Z]
    (a point on a time line); the two clocks the code reads, Python's
    [datetime.utcnow()] and PostgreSQL's [NOW()], are inputs of each call.
    Values are assumed to fit their SQL column types. *)

From Stdlib Require Import ZArith Ascii String.
From stdpp Require Import base tactics option list gmap strings sorting.

Local Open Scope Z_scope.

(** ** Python strings and exceptions *)

Module Py.

Abbreviation str := (list ascii).

(** A string literal. *)
Definition lit (s : string) : str := list_ascii_of_string s.

Definition code (c : ascii) : N := N_of_ascii c.

Definition between (lo hi : N) (c : ascii) : bool :=
  ((lo <=? code c) && (code c <=? hi))%N.

(** [str.isspace] on 7-bit characters: TAB..CR, FS..US and SPACE. *)
Definition is_space (c : ascii) : bool := between 9 13 c || between 28 32 c.

Definition upper_char (c : ascii) : ascii :=
  if between 97 122 c then ascii_of_N (code c - 32) else c.

Definition lower_char (c : ascii) : ascii :=
  if between 65 90 c then ascii_of_N (code c + 32) else c.

Definition upper (s : str) : str := upper_char <$> s.
Definition lower (s : str) : str := lower_char <$> s.

Fixpoint drop_while (p : ascii → bool) (s : str) : str :=
  match s with
  | [] => []
  | c :: t => if p c then drop_while p t else s
  end.

Definition lstrip (s : str) : str := drop_while is_space s.
Definition rstrip (s : str) : str := reverse (drop_while is_space (reverse s)).
(** [s.strip()] *)
Definition strip (s : str) : str := rstrip (lstrip s).

(** [s.startswith(p)] *)
Fixpoint startswith (p s : str) : bool :=
  match p, s with
  | [], _ => true
  | _ :: _, [] => false
  | a :: p', b :: s' => if decide (a = b) then startswith p' s' else false
  end.

Fixpoint find_from (sub s : str) (i : Z) : Z :=
  if startswith sub s then i
  else match s with
       | [] => -1
       | _ :: t => find_from sub t (i + 1)
       end.

(** [s.find(sub)]: lowest index of an occurrence, [-1] when there is none. *)
Definition find (sub s : str) : Z := find_from sub s 0.

Fixpoint rfind_from (sub s : str) (i last : Z) : Z :=
  let last' := if startswith sub s then i else last in
  match s with
  | [] => last'
  | _ :: t => rfind_from sub t (i + 1) last'
  end.

(** [s.rfind(sub)]: highest index of an occurrence, [-1] when there is none. *)
Definition rfind (sub s : str) : Z := rfind_from sub s 0 (-1).

(** [len(s)], for strings and lists alike. *)
Definition len {A} (s : list A) : Z := Z.of_nat (length s).

(** A slice bound, as Python normalises it against the length. *)
Definition clamp (n i : Z) : Z :=
  if i <? 0 then Z.max 0 (i + n) else Z.min i n.

(** [s[lo:hi]]; [None] is an omitted bound. *)
Definition slice (s : str) (lo hi : option Z) : str :=
  let a := clamp (len s) (default 0 lo) in
  let b := clamp (len s) (default (len s) hi) in
  take (Z.to_nat (b - a)) (drop (Z.to_nat a) s).

Definition nl : ascii := ascii_of_N 10.

(** [s.split("\n")] *)
Fixpoint split_lines (s : str) : list str :=
  match s with
  | [] => [[]]
  | c :: t =>
      if decide (c = nl) then [] :: split_lines t
      else match split_lines t with
           | h :: r => (c :: h) :: r
           | [] => [[c]]
           end
  end.

(** ["\n".join(ls)] *)
Fixpoint join_lines (ls : list str) : str :=
  match ls with
  | [] => []
  | [l] => l
  | l :: r => l ++ nl :: join_lines r
  end.

(** Truthiness of an [Optional[str]]: [None] and the empty string are falsy. *)
Definition truthy (v : option str) : bool :=
  match v with
  | None | Some [] => false
  | Some (_ :: _) => true
  end.

(** The exception classes the modelled code raises or catches. *)
Inductive exn : Type :=
| AttributeError
| UnboundLocalError
| ValueError
| ValidationError
| PostgresError
| TimeoutError
| KeyboardInterrupt
| CancelledError.

Global Instance exn_eq_dec : EqDecision exn.
Proof. solve_decision. Defined.

(** [isinstance(e, Exception)]: [KeyboardInterrupt] and
    [asyncio.CancelledError] derive from [BaseException] only. *)
Definition is_Exception (e : exn) : bool :=
  match e with
  | KeyboardInterrupt | CancelledError => false
  | _ => true
  end.

(** The outcome of evaluating an expression or a call. *)
Inductive result (A : Type) : Type :=
| Ok (a : A)
| Raise (e : exn).
Global Arguments Ok {A} a.
Global Arguments Raise {A} e.

Definition bind {A B} (r : result A) (k : A → result B) : result B :=
  match r with
  | Ok a => k a
  | Raise e => Raise e
  end.

End Py.

Import Py.

(** ** models/schemas.py *)

Module Schemas.

(** The range test both year validators share:
    [v < 1900 or v > datetime.now().year + 1]. *)
Definition year_out_of_range (now_year v : Z) : bool :=
  (v <? 1900) || (v >? now_year + 1).

Module SearchCriteria.

Record t : Type := mk {
  make : str;
  model : option str;
  year_min : option Z;
  year_max : option Z;
  max_miles : option Z;
  max_price : option Z
}.

(** [validate_year]: raises on a year outside the range. *)
Definition validate_year (now_year : Z) (v : option Z) : result (option Z) :=
  match v with
  | Some y => if year_out_of_range now_year y then Raise ValueError else Ok v
  | None => Ok v
  end.

(** [validate_positive] *)
Definition validate_positive (v : option Z) : result (option Z) :=
  match v with
  | Some n => if n <? 0 then Raise ValueError else Ok v
  | None => Ok v
  end.

Definition is_ok {A} (r : result A) : bool :=
  match r with Ok _ => true | Raise _ => false end.

(** [SearchCriteria(make=..., ...)]: pydantic runs every field
    validator and raises one [ValidationError] if any of them failed. *)
Definition init (now_year : Z) (kw : t) : result t :=
  if is_ok (validate_year now_year (year_min kw))
     && is_ok (validate_year now_year (year_max kw))
     && is_ok (validate_positive (max_miles kw))
     && is_ok (validate_positive (max_price kw))
  then Ok kw
  else Raise ValidationError.

End SearchCriteria.

Module CarListing.

Record t : Type := mk {
  id : str;
  source_site : str;
  url : option str;
  year : option Z;
  make : option str;
  model : option str;
  trim : option str;
  miles : option Z;
  current_bid : option Z;
  buy_now_price : option Z;
  condition : option str;
  damage_type : option str;
  secondary_damage : option str;
  location : option str;
  sale_date : option Z;
  thumbnail_url : option str;
  scraped_at : Z
}.

(** [validate_year]: an invalid year becomes [None]. *)
Definition validate_year (now_year : Z) (v : option Z) : option Z :=
  match v with
  | Some y => if year_out_of_range now_year y then None else v
  | None => v
  end.

(** Keyword arguments of the constructor.  A key that is absent is
    [None]; for the optional fields an explicit [null] has the same
    effect as absence. *)
Record kwargs : Type := mk_kwargs {
  k_id : option str;
  k_source_site : option str;
  k_url : option str;
  k_year : option Z;
  k_make : option str;
  k_model : option str;
  k_trim : option str;
  k_miles : option Z;
  k_current_bid : option Z;
  k_buy_now_price : option Z;
  k_condition : option str;
  k_damage_type : option str;
  k_secondary_damage : option str;
  k_location : option str;
  k_sale_date : option Z;
  k_thumbnail_url : option str;
  k_scraped_at : option Z
}.

(** [CarListing] construction from keyword arguments: [id] is required, [source_site] defaults to
    ["copart"], [scraped_at] to [datetime.utcnow()]. *)
Definition init (now_year utcnow : Z) (kw : kwargs) : result t :=
  match k_id kw with
  | None => Raise ValidationError
  | Some i =>
      Ok {| id := i;
            source_site := default (lit "copart") (k_source_site kw);
            url := k_url kw;
            year := validate_year now_year (k_year kw);
            make := k_make kw;
            model := k_model kw;
            trim := k_trim kw;
            miles := k_miles kw;
            current_bid := k_current_bid kw;
            buy_now_price := k_buy_now_price kw;
            condition := k_condition kw;
            damage_type := k_damage_type kw;
            secondary_damage := k_secondary_damage kw;
            location := k_location kw;
            sale_date := k_sale_date kw;
            thumbnail_url := k_thumbnail_url kw;
            scraped_at := default utcnow (k_scraped_at kw) |}
  end.

End CarListing.

Module CarDetail.

(** [class CarDetail(CarListing)]: the inherited fields are [base]. *)
Record t : Type := mk {
  base : CarListing.t;
  vin : option str;
  engine : option str;
  transmission : option str;
  drive_type : option str;
  fuel_type : option str;
  color : option str;
  interior_color : option str;
  keys : option str;
  airbags : option str;
  seller : option str;
  title_type : option str;
  images : list str;
  description : option str
}.

(** The character class [[A-HJ-NPR-Z0-9]]. *)
Definition vin_char (c : ascii) : bool :=
  between 65 72 c || between 74 78 c || (code c =? 80)%N
  || between 82 90 c || between 48 57 c.

(** [re.match(r'^[A-HJ-NPR-Z0-9]{17}$', v)]: seventeen characters of
    the class from the start, then the end of the string; [$] also
    matches just before one trailing newline. *)
Definition re_match_vin (v : str) : bool :=
  forallb vin_char (take 17 v)
  && (length (take 17 v) =? 17)%nat
  && match drop 17 v with
     | [] => true
     | [c] => bool_decide (c = nl)
     | _ => false
     end.

(** [validate_vin] *)
Definition validate_vin (v : option str) : option str :=
  match v with
  | Some s =>
      let v' := upper (strip s) in
      if negb (length v' =? 17)%nat || negb (re_match_vin v')
      then None
      else Some v'
  | None => v
  end.

Record kwargs : Type := mk_kwargs {
  k_base : CarListing.kwargs;
  k_vin : option str;
  k_engine : option str;
  k_transmission : option str;
  k_drive_type : option str;
  k_fuel_type : option str;
  k_color : option str;
  k_interior_color : option str;
  k_keys : option str;
  k_airbags : option str;
  k_seller : option str;
  k_title_type : option str;
  k_images : option (list str);
  k_description : option str
}.

(** [CarDetail] construction from keyword arguments; [images] defaults to the empty list. *)
Definition init (now_year utcnow : Z) (kw : kwargs) : result t :=
  bind (CarListing.init now_year utcnow (k_base kw)) (λ b,
    Ok {| base := b;
          vin := validate_vin (k_vin kw);
          engine := k_engine kw;
          transmission := k_transmission kw;
          drive_type := k_drive_type kw;
          fuel_type := k_fuel_type kw;
          color := k_color kw;
          interior_color := k_interior_color kw;
          keys := k_keys kw;
          airbags := k_airbags kw;
          seller := k_seller kw;
          title_type := k_title_type kw;
          images := default [] (k_images kw);
          description := k_description kw |}).

End CarDetail.

(** A value passed where the code expects a listing: an instance of
    [CarListing] proper or of its subclass [CarDetail]. *)
Inductive instance : Type :=
| Listing (l : CarListing.t)
| Detail (d : CarDetail.t).

(** The inherited part, readable on either class. *)
Definition as_listing (o : instance) : CarListing.t :=
  match o with
  | Listing l => l
  | Detail d => CarDetail.base d
  end.

(** [o.vin]: only [CarDetail] declares the field; pydantic's
    [__getattr__] raises [AttributeError] for an undeclared name. *)
Definition getattr_vin (o : instance) : result (option str) :=
  match o with
  | Listing _ => Raise AttributeError
  | Detail d => Ok (CarDetail.vin d)
  end.

End Schemas.

(** ** scraper/storage.py *)

Module Storage.
Import Schemas.

(** SQL [COALESCE(a, b)]. *)
Definition coalesce {A} (a b : option A) : option A :=
  match a with
  | Some _ => a
  | None => b
  end.

(** [scraper.listings], primary key [(source_site, id)]. *)
Module listings.
Record row : Type := mk {
  vin : option str;
  id : str;
  source_site : str;
  url : option str;
  year : option Z;
  make : option str;
  model : option str;
  trim : option str;
  miles : option Z;
  current_bid : option Z;
  buy_now_price : option Z;
  condition : option str;
  damage_type : option str;
  secondary_damage : option str;
  location : option str;
  sale_date : option Z;
  thumbnail_url : option str;
  scraped_at : Z;
  updated_at : Z
}.

Definition key (r : row) : str * str := (source_site r, id r).

(** The [DO UPDATE SET] list of [upsert_listing]: [ex] is the row
    proposed for insertion ([EXCLUDED]), [old] the row in conflict. *)
Definition do_update (now : Z) (ex old : row) : row :=
  {| vin := coalesce (vin ex) (vin old);
     id := id old;
     source_site := source_site old;
     url := coalesce (url ex) (url old);
     year := year old;
     make := make old;
     model := model old;
     trim := trim old;
     miles := miles old;
     current_bid := coalesce (current_bid ex) (current_bid old);
     buy_now_price := coalesce (buy_now_price ex) (buy_now_price old);
     condition := condition old;
     damage_type := damage_type old;
     secondary_damage := secondary_damage old;
     location := location old;
     sale_date := coalesce (sale_date ex) (sale_date old);
     thumbnail_url := thumbnail_url old;
     scraped_at := scraped_at old;
     updated_at := now |}.
End listings.

(** [scraper.details], primary key [vin]. *)
Module details.
Record row : Type := mk {
  vin : str;
  id : option str;
  source_site : option str;
  engine : option str;
  transmission : option str;
  drive_type : option str;
  fuel_type : option str;
  color : option str;
  interior_color : option str;
  keys : option str;
  airbags : option str;
  seller : option str;
  title_type : option str;
  images : option (list str);
  description : option str;
  scraped_at : Z
}.

(** The [DO UPDATE SET] list of [upsert_detail]. *)
Definition do_update (now : Z) (ex old : row) : row :=
  {| vin := vin old;
     id := coalesce (id ex) (id old);
     source_site := coalesce (source_site ex) (source_site old);
     engine := coalesce (engine ex) (engine old);
     transmission := coalesce (transmission ex) (transmission old);
     drive_type := coalesce (drive_type ex) (drive_type old);
     fuel_type := coalesce (fuel_type ex) (fuel_type old);
     color := coalesce (color ex) (color old);
     interior_color := coalesce (interior_color ex) (interior_color old);
     keys := coalesce (keys ex) (keys old);
     airbags := coalesce (airbags ex) (airbags old);
     seller := coalesce (seller ex) (seller old);
     title_type := coalesce (title_type ex) (title_type old);
     images := coalesce (images ex) (images old);
     description := coalesce (description ex) (description old);
     scraped_at := now |}.
End details.

(** [scraper.runs], primary key [id] drawn from a sequence. *)
Module runs.
Record row : Type := mk {
  id : Z;
  site : str;
  criteria : SearchCriteria.t;
  started_at : Z;
  completed_at : option Z;
  listings_found : Z;
  details_fetched : Z;
  errors : Z;
  status : str
}.
End runs.

(** What the storage methods act on: the three relations, the [runs]
    id sequence, and the lines printed so far. *)
Record state : Type := mk_state {
  listings_tbl : gmap (str * str) listings.row;
  details_tbl : gmap str details.row;
  runs_tbl : gmap Z runs.row;
  runs_id_seq : Z;
  stdout : list str
}.

Definition set_listings (t : gmap (str * str) listings.row) (s : state) : state :=
  {| listings_tbl := t; details_tbl := details_tbl s; runs_tbl := runs_tbl s;
     runs_id_seq := runs_id_seq s; stdout := stdout s |}.

Definition set_details (t : gmap str details.row) (s : state) : state :=
  {| listings_tbl := listings_tbl s; details_tbl := t; runs_tbl := runs_tbl s;
     runs_id_seq := runs_id_seq s; stdout := stdout s |}.

Definition set_runs (t : gmap Z runs.row) (seq : Z) (s : state) : state :=
  {| listings_tbl := listings_tbl s; details_tbl := details_tbl s; runs_tbl := t;
     runs_id_seq := seq; stdout := stdout s |}.

(** [print(line)] *)
Definition print (line : str) (s : state) : state :=
  {| listings_tbl := listings_tbl s; details_tbl := details_tbl s;
     runs_tbl := runs_tbl s; runs_id_seq := runs_id_seq s;
     stdout := stdout s ++ [line] |}.

(** The clocks one statement reads: [datetime.utcnow()] on the client
    and [NOW()] on the server. *)
Record clock : Type := mk_clock { utcnow : Z; db_now : Z }.

(** A method call: it ends normally or raises, and leaves a state
    behind either way. *)
Definition M (A : Type) : Type := state → result A * state.

Definition ret {A} (a : A) : M A := λ s, (Ok a, s).
Definition raise {A} (e : exn) : M A := λ s, (Raise e, s).
Definition lift {A} (r : result A) : M A := λ s, (r, s).
Definition modify (f : state → state) : M unit := λ s, (Ok tt, f s).
Definition bindM {A B} (c : M A) (k : A → M B) : M B :=
  λ s, match c s with
       | (Ok a, s') => k a s'
       | (Raise e, s') => (Raise e, s')
       end.

Notation "x <- c ;; k" := (bindM c (λ x, k))
  (at level 100, c at next level, right associativity).
Notation "c ;;; k" := (bindM c (λ _, k))
  (at level 100, right associativity).

(** The row [upsert_listing] proposes for insertion: the eighteen
    statement parameters in column order, [$18] used twice. *)
Definition listing_params (l : CarListing.t) (v : option str) (now : Z)
  : listings.row :=
  {| listings.vin := v;
     listings.id := CarListing.id l;
     listings.source_site := CarListing.source_site l;
     listings.url := CarListing.url l;
     listings.year := CarListing.year l;
     listings.make := CarListing.make l;
     listings.model := CarListing.model l;
     listings.trim := CarListing.trim l;
     listings.miles := CarListing.miles l;
     listings.current_bid := CarListing.current_bid l;
     listings.buy_now_price := CarListing.buy_now_price l;
     listings.condition := CarListing.condition l;
     listings.damage_type := CarListing.damage_type l;
     listings.secondary_damage := CarListing.secondary_damage l;
     listings.location := CarListing.location l;
     listings.sale_date := CarListing.sale_date l;
     listings.thumbnail_url := CarListing.thumbnail_url l;
     listings.scraped_at := now;
     listings.updated_at := now |}.

(** [INSERT INTO scraper.listings ... ON CONFLICT (source_site, id)
    DO UPDATE SET ...] *)
Definition insert_listing (clk : clock) (ex : listings.row)
    (t : gmap (str * str) listings.row) : gmap (str * str) listings.row :=
  match t !! listings.key ex with
  | None => <[listings.key ex := ex]> t
  | Some old => <[listings.key ex := listings.do_update (db_now clk) ex old]> t
  end.

(** [upsert_listing]: the arguments of [conn.execute] are evaluated
    first, [listing.vin] among them, then the statement runs. *)
Definition upsert_listing (clk : clock) (listing : instance) : M unit :=
  v <- lift (getattr_vin listing) ;;
  modify (λ s, set_listings
    (insert_listing clk (listing_params (as_listing listing) v (utcnow clk))
       (listings_tbl s)) s).

(** [upsert_listings]: one call per element, each reading the clocks
    anew; the first exception ends the loop. *)
Fixpoint upsert_listings (clks : nat → clock) (ls : list instance) : M unit :=
  match ls with
  | [] => ret tt
  | l :: rest =>
      upsert_listing (clks O) l ;;;
      upsert_listings (λ n, clks (S n)) rest
  end.

Definition detail_params (d : CarDetail.t) (v : str) (now : Z) : details.row :=
  {| details.vin := v;
     details.id := Some (CarListing.id (CarDetail.base d));
     details.source_site := Some (CarListing.source_site (CarDetail.base d));
     details.engine := CarDetail.engine d;
     details.transmission := CarDetail.transmission d;
     details.drive_type := CarDetail.drive_type d;
     details.fuel_type := CarDetail.fuel_type d;
     details.color := CarDetail.color d;
     details.interior_color := CarDetail.interior_color d;
     details.keys := CarDetail.keys d;
     details.airbags := CarDetail.airbags d;
     details.seller := CarDetail.seller d;
     details.title_type := CarDetail.title_type d;
     details.images := Some (CarDetail.images d);
     details.description := CarDetail.description d;
     details.scraped_at := now |}.

(** [INSERT INTO scraper.details ... ON CONFLICT (vin) DO UPDATE SET ...] *)
Definition insert_detail (clk : clock) (ex : details.row)
    (t : gmap str details.row) : gmap str details.row :=
  match t !! details.vin ex with
  | None => <[details.vin ex := ex]> t
  | Some old => <[details.vin ex := details.do_update (db_now clk) ex old]> t
  end.

Definition skip_message (d : CarDetail.t) : str :=
  lit "  Skipping detail for " ++ CarListing.id (CarDetail.base d)
    ++ lit " - no VIN".

(** [upsert_detail]; [clk1] is read by the listing statement, [clk2]
    by the detail statement. *)
Definition upsert_detail (clk1 clk2 : clock) (detail : CarDetail.t) : M unit :=
  upsert_listing clk1 (Detail detail) ;;;
  match CarDetail.vin detail with
  | Some (c :: v) =>
      modify (λ s, set_details
        (insert_detail clk2 (detail_params detail (c :: v) (utcnow clk2))
           (details_tbl s)) s)
  | _ => modify (print (skip_message detail))
  end.

(** [FROM scraper.listings l LEFT JOIN scraper.details d ON l.vin = d.vin]:
    [vin] is the key of [details], so a listing row joins at most one
    detail row; a NULL [l.vin] joins none. *)
Definition left_join (s : state) : list (listings.row * option details.row) :=
  (λ kl : str * str * listings.row,
     (kl.2, listings.vin kl.2 ≫= λ v, details_tbl s !! v))
  <$> map_to_list (listings_tbl s).

(** [WHERE l.vin IS NOT NULL AND d.vin IS NULL] *)
Definition where_no_detail (ld : listings.row * option details.row) : bool :=
  bool_decide (listings.vin ld.1 ≠ None) && bool_decide (ld.2 = None).

(** [ORDER BY l.scraped_at DESC]: the row on the left is at least as recent. *)
Definition recent_first (a b : listings.row) : Prop :=
  listings.scraped_at b ≤ listings.scraped_at a.

Global Instance recent_first_dec a b : Decision (recent_first a b).
Proof. unfold recent_first. apply _. Defined.

(** The rows the query of [get_listings_without_details] selects. *)
Definition select_without_details (limit : nat) (s : state) : list listings.row :=
  take limit
    (merge_sort recent_first
       (fst <$> filter (λ ld, Is_true (where_no_detail ld)) (left_join s))).

(** [dict(row)] as constructor arguments: every column is a key. *)
Definition row_kwargs (r : listings.row) : CarListing.kwargs :=
  {| CarListing.k_id := Some (listings.id r);
     CarListing.k_source_site := Some (listings.source_site r);
     CarListing.k_url := listings.url r;
     CarListing.k_year := listings.year r;
     CarListing.k_make := listings.make r;
     CarListing.k_model := listings.model r;
     CarListing.k_trim := listings.trim r;
     CarListing.k_miles := listings.miles r;
     CarListing.k_current_bid := listings.current_bid r;
     CarListing.k_buy_now_price := listings.buy_now_price r;
     CarListing.k_condition := listings.condition r;
     CarListing.k_damage_type := listings.damage_type r;
     CarListing.k_secondary_damage := listings.secondary_damage r;
     CarListing.k_location := listings.location r;
     CarListing.k_sale_date := listings.sale_date r;
     CarListing.k_thumbnail_url := listings.thumbnail_url r;
     CarListing.k_scraped_at := Some (listings.scraped_at r) |}.

(** The list comprehension building one [CarListing] per row; the keys
    [vin] and [updated_at] name no field of the class and are ignored. *)
Fixpoint build_listings (now_year utcnow : Z) (rows : list listings.row)
  : result (list CarListing.t) :=
  match rows with
  | [] => Ok []
  | r :: rest =>
      bind (CarListing.init now_year utcnow (row_kwargs r)) (λ l,
      bind (build_listings now_year utcnow rest) (λ ls, Ok (l :: ls)))
  end.

(** [get_listings_without_details]; PostgreSQL rejects a negative
    [LIMIT]. *)
Definition get_listings_without_details (now_year utcnow : Z) (limit : Z)
  : M (list CarListing.t) :=
  if limit <? 0 then raise PostgresError
  else λ s, (build_listings now_year utcnow
               (select_without_details (Z.to_nat limit) s), s).

(** [start_run]: [INSERT INTO scraper.runs ... RETURNING id]. *)
Definition start_run (clk : clock) (site : str) (criteria : SearchCriteria.t)
  : M Z :=
  λ s, let i := runs_id_seq s in
       (Ok i,
        set_runs (<[i := {| runs.id := i; runs.site := site;
                            runs.criteria := criteria;
                            runs.started_at := db_now clk;
                            runs.completed_at := None;
                            runs.listings_found := 0;
                            runs.details_fetched := 0;
                            runs.errors := 0;
                            runs.status := lit "running" |}]> (runs_tbl s))
                 (i + 1) s).

(** The [SET] list of [complete_run]. *)
Definition finish (now : Z) (found fetched errs : Z) (st : str)
    (r : runs.row) : runs.row :=
  {| runs.id := runs.id r; runs.site := runs.site r;
     runs.criteria := runs.criteria r; runs.started_at := runs.started_at r;
     runs.completed_at := Some now;
     runs.listings_found := found; runs.details_fetched := fetched;
     runs.errors := errs; runs.status := st |}.

(** [complete_run]: [UPDATE scraper.runs SET ... WHERE id = $1]. *)
Definition complete_run (clk : clock) (run_id listings_found details_fetched
    errors : Z) (status : str) : M unit :=
  modify (λ s, set_runs
    (alter (finish (db_now clk) listings_found details_fetched errors status)
       run_id (runs_tbl s))
    (runs_id_seq s) s).

End Storage.

(** ** scraper/extractor.py *)

Module Extractor.

Definition content_markers : list str :=
  [lit "<table"; lit "<tbody"; lit "results"; lit "listings"; lit "lot-";
   lit "vehicle"].

(** The marker loop of [_truncate_html]: the first marker of the list
    whose first occurrence lies strictly inside the first half decides
    [best_start]. *)
Fixpoint best_start (html : str) (markers : list str) : Z :=
  match markers with
  | [] => 0
  | marker :: rest =>
      let idx := find marker (lower html) in
      if (0 <? idx) && (idx <? len html / 2)
      then Z.max 0 (idx - 1000)
      else best_start html rest
  end.

Definition truncation_note : str := nl :: lit "<!-- content truncated -->".

(** [_truncate_html] *)
Definition _truncate_html (html : str) (max_chars : Z) : str :=
  if len html <=? max_chars then html
  else
    let start := best_start html content_markers in
    let truncated := slice html (Some start) (Some (start + max_chars)) in
    let last_close := rfind (lit ">") truncated in
    let truncated :=
      if last_close >? max_chars - 2000
      then slice truncated None (Some (last_close + 1))
      else truncated in
    truncated ++ truncation_note.

Definition fence : str := lit "```".

(** The test of the list comprehension: [l.strip().startswith(fence)]. *)
Definition is_fence_line (l : str) : bool := startswith fence (strip l).

(** [_clean_json_response] *)
Definition _clean_json_response (response_text : str) : str :=
  let text := strip response_text in
  let text :=
    if startswith fence text
    then join_lines (filter (λ l, ¬ Is_true (is_fence_line l)) (split_lines text))
    else text in
  strip text.

(** A response wrapped in a markdown code block: an opening fence line
    carrying the info string [lang], the response, a closing fence line. *)
Definition fenced (lang response : str) : str :=
  fence ++ lang ++ nl :: response ++ nl :: fence.

Import Schemas.

(** What the extractor needs from outside: the text the model answers
    when asked with the instruction prompt built around a piece of
    markup ([self.client.messages.create] and the constant prompt), and
    [json.loads], whose [JSONDecodeError] is a [ValueError].  A decoded
    object is read as the keyword arguments it supplies. *)
Record oracle : Type := mk_oracle {
  ask_listings : str → result str;
  ask_detail : str → str → result str;
  loads_array : str → result (list CarListing.kwargs);
  loads_object : str → result CarDetail.kwargs
}.

Definition lot_url (id : str) : str := lit "https://www.copart.com/lot/" ++ id.

Definition set_site_url (site url : option str) (item : CarListing.kwargs)
  : CarListing.kwargs :=
  {| CarListing.k_id := CarListing.k_id item;
     CarListing.k_source_site := site;
     CarListing.k_url := url;
     CarListing.k_year := CarListing.k_year item;
     CarListing.k_make := CarListing.k_make item;
     CarListing.k_model := CarListing.k_model item;
     CarListing.k_trim := CarListing.k_trim item;
     CarListing.k_miles := CarListing.k_miles item;
     CarListing.k_current_bid := CarListing.k_current_bid item;
     CarListing.k_buy_now_price := CarListing.k_buy_now_price item;
     CarListing.k_condition := CarListing.k_condition item;
     CarListing.k_damage_type := CarListing.k_damage_type item;
     CarListing.k_secondary_damage := CarListing.k_secondary_damage item;
     CarListing.k_location := CarListing.k_location item;
     CarListing.k_sale_date := CarListing.k_sale_date item;
     CarListing.k_thumbnail_url := CarListing.k_thumbnail_url item;
     CarListing.k_scraped_at := CarListing.k_scraped_at item |}.

(** The body of the loop over the decoded items: the site is set, a
    missing or empty URL is built from a non-empty id, and the model
    class is instantiated. *)
Definition listing_of_item (now_year utcnow : Z) (item : CarListing.kwargs)
  : result CarListing.t :=
  let url :=
    if negb (truthy (CarListing.k_url item)) && truthy (CarListing.k_id item)
    then Some (lot_url (default [] (CarListing.k_id item)))
    else CarListing.k_url item in
  CarListing.init now_year utcnow (set_site_url (Some (lit "copart")) url item).

(** The loop itself: an item whose construction raises is skipped.
    [utcnow] is the clock read by the n-th construction. *)
Fixpoint convert_items (now_year : Z) (utcnow : nat → Z)
    (items : list CarListing.kwargs) : list CarListing.t :=
  match items with
  | [] => []
  | item :: rest =>
      match listing_of_item now_year (utcnow O) item with
      | Ok listing => listing :: convert_items now_year (λ n, utcnow (S n)) rest
      | Raise _ => convert_items now_year (λ n, utcnow (S n)) rest
      end
  end.

(** [extract_listings]: both [except] clauses return the empty list;
    what is not an [Exception] propagates. *)
Definition extract_listings (O : oracle) (now_year : Z) (utcnow : nat → Z)
    (html : str) : result (list CarListing.t) :=
  let truncated_html := _truncate_html html 50000 in
  match ask_listings O truncated_html with
  | Raise e => if is_Exception e then Ok [] else Raise e
  | Ok response_text =>
      let cleaned_json := _clean_json_response response_text in
      match loads_array O cleaned_json with
      | Raise e => if is_Exception e then Ok [] else Raise e
      | Ok listings_data => Ok (convert_items now_year utcnow listings_data)
      end
  end.

(** [x or y] on an optional string and a string. *)
Definition or_else (x : option str) (y : str) : str :=
  match x with
  | Some (c :: s) => c :: s
  | _ => y
  end.

(** The "ensure required fields" step of [extract_detail]. *)
Definition ensure_required (listing_id listing_url : str)
    (detail_data : CarDetail.kwargs) : CarDetail.kwargs :=
  let base := CarDetail.k_base detail_data in
  {| CarDetail.k_base :=
       {| CarListing.k_id := Some (or_else (CarListing.k_id base) listing_id);
          CarListing.k_source_site := Some (lit "copart");
          CarListing.k_url := Some (or_else (CarListing.k_url base) listing_url);
          CarListing.k_year := CarListing.k_year base;
          CarListing.k_make := CarListing.k_make base;
          CarListing.k_model := CarListing.k_model base;
          CarListing.k_trim := CarListing.k_trim base;
          CarListing.k_miles := CarListing.k_miles base;
          CarListing.k_current_bid := CarListing.k_current_bid base;
          CarListing.k_buy_now_price := CarListing.k_buy_now_price base;
          CarListing.k_condition := CarListing.k_condition base;
          CarListing.k_damage_type := CarListing.k_damage_type base;
          CarListing.k_secondary_damage := CarListing.k_secondary_damage base;
          CarListing.k_location := CarListing.k_location base;
          CarListing.k_sale_date := CarListing.k_sale_date base;
          CarListing.k_thumbnail_url := CarListing.k_thumbnail_url base;
          CarListing.k_scraped_at := CarListing.k_scraped_at base |};
     CarDetail.k_vin := CarDetail.k_vin detail_data;
     CarDetail.k_engine := CarDetail.k_engine detail_data;
     CarDetail.k_transmission := CarDetail.k_transmission detail_data;
     CarDetail.k_drive_type := CarDetail.k_drive_type detail_data;
     CarDetail.k_fuel_type := CarDetail.k_fuel_type detail_data;
     CarDetail.k_color := CarDetail.k_color detail_data;
     CarDetail.k_interior_color := CarDetail.k_interior_color detail_data;
     CarDetail.k_keys := CarDetail.k_keys detail_data;
     CarDetail.k_airbags := CarDetail.k_airbags detail_data;
     CarDetail.k_seller := CarDetail.k_seller detail_data;
     CarDetail.k_title_type := CarDetail.k_title_type detail_data;
     CarDetail.k_images := CarDetail.k_images detail_data;
     CarDetail.k_description := CarDetail.k_description detail_data |}.

(** [extract_detail]: [None] on any [Exception]. *)
Definition extract_detail (O : oracle) (now_year utcnow : Z)
    (html listing_id listing_url : str) : result (option CarDetail.t) :=
  let truncated_html := _truncate_html html 40000 in
  match ask_detail O truncated_html listing_id with
  | Raise e => if is_Exception e then Ok None else Raise e
  | Ok response_text =>
      let cleaned_json := _clean_json_response response_text in
      match loads_object O cleaned_json with
      | Raise e => if is_Exception e then Ok None else Raise e
      | Ok detail_data =>
          match CarDetail.init now_year utcnow
                  (ensure_required listing_id listing_url detail_data) with
          | Ok detail => Ok (Some detail)
          | Raise e => if is_Exception e then Ok None else Raise e
          end
      end
  end.

End Extractor.

(** ** main.py: the [search] command *)

Module Main.
Import Schemas.

(** What a run leaves behind, in order: the run row created, a
    [complete_run] statement executed, the browser session and the
    connection pool closed. *)
Inductive event : Type :=
| RunStarted (run_id : Z)
| RunCompleted (run_id listings_found details_fetched errors : Z) (status : str)
| BrowserClosed
| StorageClosed.

Global Instance event_eq_dec : EqDecision event.
Proof. solve_decision. Defined.


(** Everything outside the program that [_search] awaits.  Browser,
    model and connection calls return what the outside world decides;
    a [fault_*] field is an exception surfacing at a storage call
    (a lost connection, an interrupt) instead of the call's effect. *)
Record env : Type := mk_env {
  now_year : Z;
  settings : result unit;
  connect : result unit;
  fault_start_run : option exn;
  clk_start_run : Storage.clock;
  browser_start : result unit;
  login : result bool;
  save_cookies : result unit;
  search : result bool;
  get_page_html : Z → result str;
  extract_listings : Z → result (list CarListing.t);
  fault_upsert : Z → option exn;
  clk_upsert : Z → nat → Storage.clock;
  has_next_page : Z → result bool;
  go_next_page : Z → result bool;
  fault_complete_run : option exn;
  fault_complete_run_handler : option exn;
  clk_complete_run : Storage.clock;
  browser_close : result unit;
  storage_close : result unit
}.

(** The local variables of [_search] that are assigned inside the
    [try] block and read by its handlers; [None] is "not yet bound". *)
Record locals : Type := mk_locals {
  run_id : option Z;
  total_listings : option Z;
  errors : option Z
}.

Record state : Type := mk_state {
  vars : locals;
  store : Storage.state;
  trace : list event
}.

Definition P (A : Type) : Type := state → result A * state.

Definition ret {A} (a : A) : P A := λ s, (Ok a, s).
Definition lift {A} (r : result A) : P A := λ s, (r, s).
Definition bindP {A B} (c : P A) (k : A → P B) : P B :=
  λ s, match c s with
       | (Ok a, s') => k a s'
       | (Raise e, s') => (Raise e, s')
       end.

Notation "x <- c ;; k" := (bindP c (λ x, k))
  (at level 100, c at next level, right associativity).
Notation "c ;;; k" := (bindP c (λ _, k))
  (at level 100, right associativity).

Definition emit (e : event) : P unit :=
  λ s, (Ok tt, {| vars := vars s; store := store s; trace := trace s ++ [e] |}).

Definition set_vars (f : locals → locals) : P unit :=
  λ s, (Ok tt, {| vars := f (vars s); store := store s; trace := trace s |}).

(** Reading a local: [UnboundLocalError] before its first assignment. *)
Definition read (x : locals → option Z) : P Z :=
  λ s, match x (vars s) with
       | Some v => (Ok v, s)
       | None => (Raise UnboundLocalError, s)
       end.

(** A call into [Storage]: the fault if one surfaces, else the method
    run on the store. *)
Definition storage_call {A} (fault : option exn) (m : Storage.M A) : P A :=
  λ s, match fault with
       | Some e => (Raise e, s)
       | None =>
           let '(r, st) := m (store s) in
           (r, {| vars := vars s; store := st; trace := trace s |})
       end.

(** [await storage.complete_run(...)] and the event it leaves. *)
Definition complete_run (E : env) (fault : option exn)
    (rid found fetched errs : Z) (status : str) : P unit :=
  storage_call fault
    (Storage.complete_run (clk_complete_run E) rid found fetched errs status) ;;;
  emit (RunCompleted rid found fetched errs status).

(** How one iteration of the page loop ends. *)
Inductive step : Type :=
| Break
| Next (page : Z).

(** The body of [while page <= max_pages]. *)
Definition page_body (E : env) (max_pages page : Z) : P step :=
  html <- lift (get_page_html E page) ;;
  listings <- lift (extract_listings E page) ;;
  match listings with
  | [] => ret Break
  | _ :: _ =>
      (λ s,
         match storage_call (fault_upsert E page)
                 (Storage.upsert_listings (clk_upsert E page)
                    (Listing <$> listings)) s with
         | (Ok _, s') =>
             (total <- read total_listings ;;
              set_vars (λ v, {| run_id := run_id v;
                                total_listings := Some (total + len listings);
                                errors := errors v |})) s'
         | (Raise e, s') =>
             if is_Exception e
             then (errs <- read errors ;;
                   set_vars (λ v, {| run_id := run_id v;
                                     total_listings := total_listings v;
                                     errors := Some (errs + 1) |})) s'
             else (Raise e, s')
         end) ;;;
      if page <? max_pages then
        more <- lift (has_next_page E page) ;;
        if more : bool then
          moved <- lift (go_next_page E page) ;;
          if moved : bool then ret (Next (page + 1)) else ret Break
        else ret Break
      else ret (Next (page + 1))
  end.

(** The page loop; every iteration that does not break advances
    [page], so [fuel = max_pages] iterations suffice from page 1. *)
Fixpoint page_loop (fuel : nat) (E : env) (max_pages page : Z) : P unit :=
  match fuel with
  | O => ret tt
  | S fuel' =>
      if page <=? max_pages then
        st <- page_body E max_pages page ;;
        match st with
        | Break => ret tt
        | Next page' => page_loop fuel' E max_pages page'
        end
      else ret tt
  end.

(** The [try] block of [_search]. *)
Definition try_block (E : env) (site : str) (criteria : SearchCriteria.t)
    (max_pages : Z) : P unit :=
  lift (connect E) ;;;
  rid <- storage_call (fault_start_run E)
           (Storage.start_run (clk_start_run E) site criteria) ;;
  set_vars (λ v, {| run_id := Some rid; total_listings := total_listings v;
                    errors := errors v |}) ;;;
  emit (RunStarted rid) ;;;
  lift (browser_start E) ;;;
  login_success <- lift (login E) ;;
  if negb login_success then
    complete_run E (fault_complete_run E) rid 0 0 1 (lit "failed")
  else
    lift (save_cookies E) ;;;
    search_success <- lift (search E) ;;
    if negb search_success then
      complete_run E (fault_complete_run E) rid 0 0 1 (lit "failed")
    else
      set_vars (λ v, {| run_id := run_id v; total_listings := Some 0;
                        errors := Some 0 |}) ;;;
      page_loop (Z.to_nat max_pages) E max_pages 1 ;;;
      total <- read total_listings ;;
      errs <- read errors ;;
      complete_run E (fault_complete_run E) rid total 0 errs (lit "completed").

(** [except KeyboardInterrupt:] *)
Definition on_interrupt (E : env) : P unit :=
  rid <- read run_id ;;
  total <- read total_listings ;;
  errs <- read errors ;;
  complete_run E (fault_complete_run_handler E) rid total 0 errs
    (lit "interrupted").

(** [except Exception as e:], ending in a bare [raise] of [e]. *)
Definition on_exception (E : env) (e : exn) : P unit :=
  rid <- read run_id ;;
  total <- read total_listings ;;
  errs <- read errors ;;
  complete_run E (fault_complete_run_handler E) rid total 0 (errs + 1)
    (lit "failed") ;;;
  lift (Raise e).

(** [finally:] *)
Definition finally_block (E : env) : P unit :=
  lift (browser_close E) ;;; emit BrowserClosed ;;;
  lift (storage_close E) ;;; emit StorageClosed.

(** [try: ... except KeyboardInterrupt: ... except Exception: ...
    finally: ...]: the handler matching the exception runs, what it
    raises propagates, and the [finally] block runs last on every
    path; an exception raised there replaces the pending one. *)
Definition try_statement (E : env) (body : P unit) : P unit :=
  λ s,
    let '(r, s1) := body s in
    let '(r', s2) :=
      match r with
      | Ok _ => (Ok tt, s1)
      | Raise e =>
          if decide (e = KeyboardInterrupt) then on_interrupt E s1
          else if is_Exception e then on_exception E e s1
          else (Raise e, s1)
      end in
    match finally_block E s2 with
    | (Ok _, s3) => (r', s3)
    | (Raise e, s3) => (Raise e, s3)
    end.

(** [_search]: settings, site configuration and criteria are built
    before the [try] statement is entered. *)
Definition _search (E : env) (site : str) (criteria : SearchCriteria.t)
    (max_pages : Z) : P unit :=
  lift (settings E) ;;;
  criteria <- lift (SearchCriteria.init (now_year E) criteria) ;;
  try_statement E (try_block E site criteria max_pages).

Definition initial (st : Storage.state) : state :=
  {| vars := {| run_id := None; total_listings := None; errors := None |};
     store := st; trace := [] |}.

(** *** The [fetch-details] command *)

(** Everything outside the program that [_fetch_details] awaits. *)
Record fetch_env : Type := mk_fetch_env {
  f_now_year : Z;
  f_settings : result unit;
  f_connect : result unit;
  f_fault_query : option exn;
  f_utcnow : Z;
  f_browser_start : result unit;
  f_load_cookies : result bool;
  f_login : result bool;
  f_save_cookies : result unit;
  f_go_to_listing : str → result str;
  f_extractor : Extractor.oracle;
  f_extract_clock : nat → Z;
  f_fault_upsert : nat → option exn;
  f_clk_upsert : nat → Storage.clock * Storage.clock;
  f_browser_close : result unit;
  f_storage_close : result unit
}.

(** How the [try] body of one loop iteration ends when it does not
    raise: at [continue], after [fetched += 1], or after [errors += 1]. *)
Inductive item_outcome : Type :=
| Skipped
| Fetched
| NotExtracted.

(** The [try] body of the loop over the listings, for the [n]-th one. *)
Definition fetch_item (E : fetch_env) (n : nat) (listing : CarListing.t)
    (st : Storage.state) : result item_outcome * Storage.state :=
  if negb (truthy (CarListing.url listing)) then (Ok Skipped, st)
  else
    let url := default [] (CarListing.url listing) in
    match f_go_to_listing E url with
    | Raise e => (Raise e, st)
    | Ok html =>
        match Extractor.extract_detail (f_extractor E) (f_now_year E)
                (f_extract_clock E n) html (CarListing.id listing) url with
        | Raise e => (Raise e, st)
        | Ok None => (Ok NotExtracted, st)
        | Ok (Some detail) =>
            match f_fault_upsert E n with
            | Some e => (Raise e, st)
            | None =>
                match Storage.upsert_detail (f_clk_upsert E n).1
                        (f_clk_upsert E n).2 detail st with
                | (Ok _, st') => (Ok Fetched, st')
                | (Raise e, st') => (Raise e, st')
                end
            end
        end
    end.

(** The loop with its two counters; an [Exception] in the body counts
    as an error and the loop goes on. *)
Fixpoint fetch_loop (E : fetch_env) (n : nat) (listings : list CarListing.t)
    (fetched errors : Z) (st : Storage.state)
  : result (Z * Z) * Storage.state :=
  match listings with
  | [] => (Ok (fetched, errors), st)
  | listing :: rest =>
      match fetch_item E n listing st with
      | (Ok Skipped, st') => fetch_loop E (S n) rest fetched errors st'
      | (Ok Fetched, st') => fetch_loop E (S n) rest (fetched + 1) errors st'
      | (Ok NotExtracted, st') => fetch_loop E (S n) rest fetched (errors + 1) st'
      | (Raise e, st') =>
          if is_Exception e
          then fetch_loop E (S n) rest fetched (errors + 1) st'
          else (Raise e, st')
      end
  end.

(** What the command leaves: the store, the release events, and the
    summary it printed (processed, fetched, errors) if it got there. *)
Record fetch_state : Type := mk_fetch_state {
  f_store : Storage.state;
  f_trace : list event;
  f_summary : option (Z * Z * Z)
}.

(** The [try] block of [_fetch_details]. *)
Definition fetch_try_block (E : fetch_env) (limit : Z) (st : Storage.state)
  : result unit * fetch_state :=
  let quiet st := {| f_store := st; f_trace := []; f_summary := None |} in
  match f_connect E with
  | Raise e => (Raise e, quiet st)
  | Ok _ =>
      match f_fault_query E with
      | Some e => (Raise e, quiet st)
      | None =>
          match Storage.get_listings_without_details (f_now_year E)
                  (f_utcnow E) limit st with
          | (Raise e, st1) => (Raise e, quiet st1)
          | (Ok [], st1) => (Ok tt, quiet st1)
          | (Ok (l :: ls), st1) =>
              let listings := l :: ls in
              match f_browser_start E with
              | Raise e => (Raise e, quiet st1)
              | Ok _ =>
                  let session :=
                    match f_load_cookies E with
                    | Raise e => Raise e
                    | Ok true => Ok true
                    | Ok false =>
                        match f_login E with
                        | Raise e => Raise e
                        | Ok false => Ok false
                        | Ok true =>
                            match f_save_cookies E with
                            | Raise e => Raise e
                            | Ok _ => Ok true
                            end
                        end
                    end in
                  match session with
                  | Raise e => (Raise e, quiet st1)
                  | Ok false => (Ok tt, quiet st1)
                  | Ok true =>
                      match fetch_loop E O listings 0 0 st1 with
                      | (Raise e, st2) => (Raise e, quiet st2)
                      | (Ok (fetched, errors), st2) =>
                          (Ok tt,
                           {| f_store := st2; f_trace := [];
                              f_summary :=
                                Some (len listings, fetched, errors) |})
                      end
                  end
              end
          end
      end
  end.

(** [_fetch_details]: the interrupt handler only prints, the
    [Exception] handler prints and re-raises, the [finally] block
    closes the browser and then the pool. *)
Definition _fetch_details (E : fetch_env) (limit : Z) (st : Storage.state)
  : result unit * fetch_state :=
  match f_settings E with
  | Raise e => (Raise e, {| f_store := st; f_trace := []; f_summary := None |})
  | Ok _ =>
      let '(r, s1) := fetch_try_block E limit st in
      let r' :=
        match r with
        | Ok _ => Ok tt
        | Raise e => if decide (e = KeyboardInterrupt) then Ok tt else Raise e
        end in
      match f_browser_close E with
      | Raise e => (Raise e, s1)
      | Ok _ =>
          match f_storage_close E with
          | Raise e =>
              (Raise e, {| f_store := f_store s1;
                           f_trace := f_trace s1 ++ [BrowserClosed];
                           f_summary := f_summary s1 |})
          | Ok _ =>
              (r', {| f_store := f_store s1;
                      f_trace := f_trace s1 ++ [BrowserClosed; StorageClosed];
                      f_summary := f_summary s1 |})
          end
      end
  end.

End Main.


(** ** config/settings.py *)

Module Settings.

Definition required_vars : list str :=
  [lit "DATABASE_URL"; lit "ANTHROPIC_API_KEY"; lit "COPART_USERNAME";
   lit "COPART_PASSWORD"].

(** The loop of [get_settings] over the variables still to read:
    [os.environ.get(var)] is a lookup, an unset or empty value puts the
    name on the missing list, and the value is stored under the
    lower-cased name either way. *)
Fixpoint read_vars (environ : gmap str str) (vars : list str)
    (settings : gmap str (option str)) (missing : list str)
  : gmap str (option str) * list str :=
  match vars with
  | [] => (settings, missing)
  | var :: rest =>
      let value := environ !! var in
      let missing := if negb (truthy value) then missing ++ [var] else missing in
      read_vars environ rest (<[lower var := value]> settings) missing
  end.

(** [get_settings]: the left summand is the [EnvironmentError], with
    the names its message lists. *)
Definition get_settings (environ : gmap str str)
  : list str + gmap str (option str) :=
  let '(settings, missing) := read_vars environ required_vars ∅ [] in
  match missing with
  | [] => inr settings
  | _ :: _ => inl missing
  end.

End Settings.

(** ** scraper/browser.py: pagination *)

Module Browser.

(** What the page answers about the next-page control: the element
    handle the selector finds, and its two attributes. *)
Record element : Type := mk_element {
  get_disabled : result (option str);
  get_class : result (option str)
}.

(** [sub in s] *)
Definition contains (sub s : str) : bool := 0 <=? find sub s.

(** [has_next_page]; the bare [except] turns every exception into
    [False]. *)
Definition has_next_page (query_selector : result (option element)) : bool :=
  match query_selector with
  | Ok (Some el) =>
      match get_disabled el with
      | Ok is_disabled =>
          match get_class el with
          | Ok cls =>
              let class_name := match cls with
                                | Some (c :: s) => c :: s
                                | _ => []
                                end in
              negb (truthy is_disabled)
              && negb (contains (lit "disabled") class_name)
          | Raise _ => false
          end
      | Raise _ => false
      end
  | Ok None => false
  | Raise _ => false
  end.

(** [go_next_page]: [click] is what [_safe_click] returns, [delay] and
    [wait] are the outcomes of [_delay] and [wait_for_load_state]. *)
Definition go_next_page (query_selector : result (option element))
    (click : result bool) (delay wait : result unit) : result bool :=
  if negb (has_next_page query_selector) then Ok false
  else
    let handled (e : exn) : result bool :=
      if is_Exception e then Ok false else Raise e in
    match click with
    | Raise e => handled e
    | Ok _ =>
        match delay with
        | Raise e => handled e
        | Ok _ =>
            match wait with
            | Raise e => handled e
            | Ok _ => Ok true
            end
        end
    end.

End Browser.
(** * Specification vocabulary and sample data *)

Import Schemas Storage Extractor.

(** The VIN alphabet: the letters without I, O and Q, and the digits. *)
Definition vin_alphabet : str := lit "ABCDEFGHJKLMNPRSTUVWXYZ0123456789".

Definition well_formed_vin (u : str) : Prop :=
  length u = 17%nat ∧ Forall (λ c, c ∈ vin_alphabet) u.

Global Instance well_formed_vin_dec u : Decision (well_formed_vin u).
Proof. unfold well_formed_vin. apply _. Defined.

Definition year_in_range (now_year v : Z) : Prop :=
  1900 ≤ v ≤ now_year + 1.


(** The primary key under which a record is stored. *)
Definition key_of (l : CarListing.t) : str * str :=
  (CarListing.source_site l, CarListing.id l).





(** A row with its [updated_at] watermark moved to [now]. *)
Definition touch (now : Z) (r : listings.row) : listings.row :=
  {| listings.vin := listings.vin r;
     listings.id := listings.id r;
     listings.source_site := listings.source_site r;
     listings.url := listings.url r;
     listings.year := listings.year r;
     listings.make := listings.make r;
     listings.model := listings.model r;
     listings.trim := listings.trim r;
     listings.miles := listings.miles r;
     listings.current_bid := listings.current_bid r;
     listings.buy_now_price := listings.buy_now_price r;
     listings.condition := listings.condition r;
     listings.damage_type := listings.damage_type r;
     listings.secondary_damage := listings.secondary_damage r;
     listings.location := listings.location r;
     listings.sale_date := listings.sale_date r;
     listings.thumbnail_url := listings.thumbnail_url r;
     listings.scraped_at := listings.scraped_at r;
     listings.updated_at := now |}.

(** [r] is a row of the listings relation. *)
Definition stored (s : state) (r : listings.row) : Prop :=
  ∃ k, listings_tbl s !! k = Some r.

(** [r] has a VIN and the details relation has no row for it. *)
Definition lacks_detail (s : state) (r : listings.row) : Prop :=
  ∃ v, listings.vin r = Some v ∧ details_tbl s !! v = None.


Definition sample_listing_kwargs (y : Z) : CarListing.kwargs :=
  {| CarListing.k_id := Some (lit "12345678");
     CarListing.k_source_site := Some (lit "copart");
     CarListing.k_url := Some (lit "https://www.copart.com/lot/12345678");
     CarListing.k_year := Some y;
     CarListing.k_make := Some (lit "Honda");
     CarListing.k_model := Some (lit "Accord");
     CarListing.k_trim := None;
     CarListing.k_miles := Some 45000;
     CarListing.k_current_bid := Some 8500;
     CarListing.k_buy_now_price := None;
     CarListing.k_condition := None;
     CarListing.k_damage_type := None;
     CarListing.k_secondary_damage := None;
     CarListing.k_location := None;
     CarListing.k_sale_date := None;
     CarListing.k_thumbnail_url := None;
     CarListing.k_scraped_at := None |}.

Definition empty_state : state :=
  {| listings_tbl := ∅; details_tbl := ∅; runs_tbl := ∅; runs_id_seq := 1;
     stdout := [] |}.

Definition sample_listing (y bid : option Z) : CarListing.t :=
  {| CarListing.id := lit "12345678";
     CarListing.source_site := lit "copart";
     CarListing.url := Some (lit "https://www.copart.com/lot/12345678");
     CarListing.year := y;
     CarListing.make := Some (lit "Honda");
     CarListing.model := Some (lit "Accord");
     CarListing.trim := Some (lit "Sport");
     CarListing.miles := Some 45000;
     CarListing.current_bid := bid;
     CarListing.buy_now_price := None;
     CarListing.condition := Some (lit "Run and Drive");
     CarListing.damage_type := Some (lit "Front End");
     CarListing.secondary_damage := None;
     CarListing.location := Some (lit "Nashville, TN");
     CarListing.sale_date := None;
     CarListing.thumbnail_url := None;
     CarListing.scraped_at := 990 |}.

Definition sample_detail (v : option str) (y bid : option Z) : CarDetail.t :=
  {| CarDetail.base := sample_listing y bid;
     CarDetail.vin := v;
     CarDetail.engine := Some (lit "1.5L I4 Turbo");
     CarDetail.transmission := Some (lit "CVT");
     CarDetail.drive_type := None;
     CarDetail.fuel_type := None;
     CarDetail.color := Some (lit "Blue");
     CarDetail.interior_color := None;
     CarDetail.keys := None;
     CarDetail.airbags := None;
     CarDetail.seller := None;
     CarDetail.title_type := None;
     CarDetail.images := [lit "https://example.com/img1.jpg"];
     CarDetail.description := None |}.

Definition sample_vin : str := lit "1HGCV1F34LA000000".
Definition sample_key : str * str := (lit "copart", lit "12345678").

(** The state after one record has been stored at client time 1000. *)
Definition one_listing (y bid : option Z) : state :=
  (upsert_listing (mk_clock 1000 1001)
     (Detail (sample_detail (Some sample_vin) y bid)) empty_state).2.

(** A detail record for lot [i] with VIN [v]. *)
Definition sample_lot (i : str) (v : option str) : CarDetail.t :=
  {| CarDetail.base :=
       {| CarListing.id := i;
          CarListing.source_site := lit "copart";
          CarListing.url := None;
          CarListing.year := Some 2020;
          CarListing.make := Some (lit "Honda");
          CarListing.model := None;
          CarListing.trim := None;
          CarListing.miles := None;
          CarListing.current_bid := None;
          CarListing.buy_now_price := None;
          CarListing.condition := None;
          CarListing.damage_type := None;
          CarListing.secondary_damage := None;
          CarListing.location := None;
          CarListing.sale_date := None;
          CarListing.thumbnail_url := None;
          CarListing.scraped_at := 0 |};
     CarDetail.vin := v;
     CarDetail.engine := None;
     CarDetail.transmission := None;
     CarDetail.drive_type := None;
     CarDetail.fuel_type := None;
     CarDetail.color := None;
     CarDetail.interior_color := None;
     CarDetail.keys := None;
     CarDetail.airbags := None;
     CarDetail.seller := None;
     CarDetail.title_type := None;
     CarDetail.images := [];
     CarDetail.description := None |}.

(** Four lots: lot 1 with its detail row, lots 2 and 4 with a VIN and no
    detail row, lot 3 without a VIN; stored in that order of time. *)
Definition four_lots : state :=
  ((upsert_detail (mk_clock 1000 1001) (mk_clock 1002 1003)
      (sample_lot (lit "1") (Some (lit "1HGCV1F34LA000001"))) ;;;
    upsert_listing (mk_clock 2000 2001)
      (Detail (sample_lot (lit "2") (Some (lit "1HGCV1F34LA000002")))) ;;;
    upsert_listing (mk_clock 3000 3001)
      (Detail (sample_lot (lit "3") None)) ;;;
    upsert_listing (mk_clock 4000 4001)
      (Detail (sample_lot (lit "4") (Some (lit "1HGCV1F34LA000004")))))
     empty_state).2.

(** The lot numbers a call returns. *)
Definition lots_of (r : result (list CarListing.t) * state) : option (list str) :=
  match r.1 with
  | Ok ls => Some (CarListing.id <$> ls)
  | Raise _ => None
  end.

(** [marker] occurs in the lower-cased page with its first occurrence
    after position 0 and before the middle: the test of the marker loop. *)
Definition in_first_half (html marker : str) : Prop :=
  0 < find marker (lower html) < len html / 2.

(** How [_truncate_html] places the window: at 0 when no marker passes
    the test, else 1000 characters before the first occurrence of the
    first marker, in list order, that passes it (and not before 0). *)
Definition window_start_rule (html : str) (markers : list str) (start : Z) : Prop :=
  (Forall (λ m, ¬ in_first_half html m) markers ∧ start = 0)
  ∨ (∃ pre marker post,
       markers = pre ++ marker :: post
       ∧ Forall (λ m, ¬ in_first_half html m) pre
       ∧ in_first_half html marker
       ∧ start = Z.max 0 (find marker (lower html) - 1000)).

(** [sub] occurs in [s] at index [k]. *)
Definition occurs_at (sub s : str) (k : nat) : Prop :=
  (k ≤ length s)%nat ∧ startswith sub (drop k s) = true.

(** A page of 200,000 characters without any tag or marker. *)
Definition plain_page : str := replicate (Z.to_nat 200000) "a"%char.

(** A page in which the word "results" (index 1500) comes before the
    first table tag (index 3007). *)
Definition results_then_table : str :=
  replicate 1500 " "%char ++ lit "results" ++ replicate 1500 " "%char
    ++ lit "<table>" ++ replicate 4000 " "%char.

Definition small_page : str :=
  lit "<html><body><table><tr><td>lot-1</td></tr></table></body></html>".

(** No line of [response] begins, once trimmed, with the fence marker. *)
Definition no_fence_lines (response : str) : Prop :=
  Forall (λ l, ¬ Is_true (is_fence_line l)) (split_lines response).



(** The criteria of a search for one make. *)
Definition honda : SearchCriteria.t :=
  {| SearchCriteria.make := lit "Honda";
     SearchCriteria.model := None;
     SearchCriteria.year_min := None;
     SearchCriteria.year_max := None;
     SearchCriteria.max_miles := None;
     SearchCriteria.max_price := None |}.

(** An uneventful outside world: every call returns, login and search
    succeed, and each result page shows the same three listings and a
    usable next-page control. *)
Definition calm : Main.env :=
  {| Main.now_year := 2024;
     Main.settings := Ok tt;
     Main.connect := Ok tt;
     Main.fault_start_run := None;
     Main.clk_start_run := mk_clock 100 101;
     Main.browser_start := Ok tt;
     Main.login := Ok true;
     Main.save_cookies := Ok tt;
     Main.search := Ok true;
     Main.get_page_html := λ _, Ok small_page;
     Main.extract_listings := λ _,
       Ok [sample_listing (Some 2020) (Some 8500);
           sample_listing (Some 2019) None;
           sample_listing None None];
     Main.fault_upsert := λ _, None;
     Main.clk_upsert := λ p n, mk_clock (200 + p) (201 + p);
     Main.has_next_page := λ _, Ok true;
     Main.go_next_page := λ _, Ok true;
     Main.fault_complete_run := None;
     Main.fault_complete_run_handler := None;
     Main.clk_complete_run := mk_clock 900 901;
     Main.browser_close := Ok tt;
     Main.storage_close := Ok tt |}.

(** The same world, except for the outcome of one awaited call. *)
Definition with_browser_start (r : result unit) (E : Main.env) : Main.env :=
  {| Main.now_year := Main.now_year E;
     Main.settings := Main.settings E;
     Main.connect := Main.connect E;
     Main.fault_start_run := Main.fault_start_run E;
     Main.clk_start_run := Main.clk_start_run E;
     Main.browser_start := r;
     Main.login := Main.login E;
     Main.save_cookies := Main.save_cookies E;
     Main.search := Main.search E;
     Main.get_page_html := Main.get_page_html E;
     Main.extract_listings := Main.extract_listings E;
     Main.fault_upsert := Main.fault_upsert E;
     Main.clk_upsert := Main.clk_upsert E;
     Main.has_next_page := Main.has_next_page E;
     Main.go_next_page := Main.go_next_page E;
     Main.fault_complete_run := Main.fault_complete_run E;
     Main.fault_complete_run_handler := Main.fault_complete_run_handler E;
     Main.clk_complete_run := Main.clk_complete_run E;
     Main.browser_close := Main.browser_close E;
     Main.storage_close := Main.storage_close E |}.

Definition with_login (r : result bool) (E : Main.env) : Main.env :=
  {| Main.now_year := Main.now_year E;
     Main.settings := Main.settings E;
     Main.connect := Main.connect E;
     Main.fault_start_run := Main.fault_start_run E;
     Main.clk_start_run := Main.clk_start_run E;
     Main.browser_start := Main.browser_start E;
     Main.login := r;
     Main.save_cookies := Main.save_cookies E;
     Main.search := Main.search E;
     Main.get_page_html := Main.get_page_html E;
     Main.extract_listings := Main.extract_listings E;
     Main.fault_upsert := Main.fault_upsert E;
     Main.clk_upsert := Main.clk_upsert E;
     Main.has_next_page := Main.has_next_page E;
     Main.go_next_page := Main.go_next_page E;
     Main.fault_complete_run := Main.fault_complete_run E;
     Main.fault_complete_run_handler := Main.fault_complete_run_handler E;
     Main.clk_complete_run := Main.clk_complete_run E;
     Main.browser_close := Main.browser_close E;
     Main.storage_close := Main.storage_close E |}.

Definition with_page_html (f : Z → result str) (E : Main.env) : Main.env :=
  {| Main.now_year := Main.now_year E;
     Main.settings := Main.settings E;
     Main.connect := Main.connect E;
     Main.fault_start_run := Main.fault_start_run E;
     Main.clk_start_run := Main.clk_start_run E;
     Main.browser_start := Main.browser_start E;
     Main.login := Main.login E;
     Main.save_cookies := Main.save_cookies E;
     Main.search := Main.search E;
     Main.get_page_html := f;
     Main.extract_listings := Main.extract_listings E;
     Main.fault_upsert := Main.fault_upsert E;
     Main.clk_upsert := Main.clk_upsert E;
     Main.has_next_page := Main.has_next_page E;
     Main.go_next_page := Main.go_next_page E;
     Main.fault_complete_run := Main.fault_complete_run E;
     Main.fault_complete_run_handler := Main.fault_complete_run_handler E;
     Main.clk_complete_run := Main.clk_complete_run E;
     Main.browser_close := Main.browser_close E;
     Main.storage_close := Main.storage_close E |}.

(** A run of the [search] command from the empty store: how it ends,
    the events it leaves, and the status column of run 1 afterwards. *)
Definition observe (E : Main.env) (max_pages : Z)
  : result unit * list Main.event * option str :=
  let '(r, s) := Main._search E (lit "copart") honda max_pages
                   (Main.initial empty_state) in
  (r, Main.trace s, runs.status <$> runs_tbl (Main.store s) !! 1).

(** The terminal statuses. *)
Definition terminal_statuses : list str :=
  [lit "completed"; lit "failed"; lit "interrupted"].

(** The trace the claim asks for: the run row created, one completion
    with a terminal status, then the two releases. *)
Definition finalized_once (tr : list Main.event) : Prop :=
  ∃ rid found fetched errs status,
    status ∈ terminal_statuses
    ∧ tr = [Main.RunStarted rid;
            Main.RunCompleted rid found fetched errs status;
            Main.BrowserClosed; Main.StorageClosed].

(** The handlers' view of a state inside the page loop: the run id and
    both counters are bound, and the events so far are [tr]. *)
Definition counters_bound (rid : Z) (tr : list Main.event) (s : Main.state) : Prop :=
  Main.run_id (Main.vars s) = Some rid
  ∧ is_Some (Main.total_listings (Main.vars s))
  ∧ is_Some (Main.errors (Main.vars s))
  ∧ Main.trace s = tr.

(** * Vocabulary for the further properties *)


(** The writing methods of [Storage], as calls with their arguments. *)
Inductive write : Type :=
| UpsertListing (clk : clock) (o : instance)
| UpsertListings (clks : nat → clock) (os : list instance)
| UpsertDetail (clk1 clk2 : clock) (d : CarDetail.t)
| StartRun (clk : clock) (site : str) (criteria : SearchCriteria.t)
| CompleteRun (clk : clock) (run_id found fetched errs : Z) (status : str).

(** The state a call leaves, whether it returned or raised. *)
Definition after (w : write) (s : state) : state :=
  match w with
  | UpsertListing clk o => (upsert_listing clk o s).2
  | UpsertListings clks os => (upsert_listings clks os s).2
  | UpsertDetail clk1 clk2 d => (upsert_detail clk1 clk2 d s).2
  | StartRun clk site criteria => (start_run clk site criteria s).2
  | CompleteRun clk rid found fetched errs status =>
      (complete_run clk rid found fetched errs status s).2
  end.

(** The states reached from [s0] by a history of calls. *)
Definition after_all (ws : list write) (s0 : state) : state :=
  foldl (λ s w, after w s) s0 ws.

(** Every row sits under its own primary key, and the run sequence is
    ahead of every run id in use. *)
Definition well_keyed (s : state) : Prop :=
  (∀ k r, listings_tbl s !! k = Some r → listings.key r = k)
  ∧ (∀ v r, details_tbl s !! v = Some r → details.vin r = v)
  ∧ (∀ i r, runs_tbl s !! i = Some r → runs.id r = i ∧ i < runs_id_seq s).

(** Every detail row names a listing row, and that row has a VIN. *)
Definition details_have_listings (s : state) : Prop :=
  ∀ v r, details_tbl s !! v = Some r →
    ∃ site i l,
      details.source_site r = Some site ∧ details.id r = Some i
      ∧ listings_tbl s !! (site, i) = Some l
      ∧ listings.vin l ≠ None.

(** Every VIN used as a key of the details relation is non-empty. *)
Definition detail_keys_nonempty (s : state) : Prop :=
  ∀ v r, details_tbl s !! v = Some r → v ≠ [].




(** A short history: a detail with a VIN, a run started and completed,
    a detail without a VIN, and a batch that fails at its second element. *)
Definition sample_history : list write :=
  [UpsertDetail (mk_clock 1000 1001) (mk_clock 1002 1003)
     (sample_lot (lit "1") (Some (lit "1HGCV1F34LA000001")));
   StartRun (mk_clock 1100 1101) (lit "copart") honda;
   UpsertDetail (mk_clock 1200 1201) (mk_clock 1202 1203)
     (sample_lot (lit "2") None);
   UpsertListings (λ n, mk_clock 1300 1301)
     [Detail (sample_lot (lit "3") (Some (lit "1HGCV1F34LA000003")));
      Listing (sample_listing (Some 2020) None);
      Detail (sample_lot (lit "4") None)];
   CompleteRun (mk_clock 1400 1401) 1 3 1 0 (lit "completed")].

(** Nothing stored before is missing afterwards. *)
Definition nothing_deleted (s s' : state) : Prop :=
  dom (listings_tbl s) ⊆ dom (listings_tbl s')
  ∧ dom (details_tbl s) ⊆ dom (details_tbl s')
  ∧ dom (runs_tbl s) ⊆ dom (runs_tbl s').

(** The same lot with a stored picture, and a later observation of it
    that carries a colour but no picture. *)
Definition lot_with_image : CarDetail.t :=
  sample_detail (Some sample_vin) (Some 2020) (Some 8500).



(** An optional year bound that is absent or in range. *)
Definition year_bound_ok (now_year : Z) (v : option Z) : Prop :=
  ∀ y, v = Some y → year_in_range now_year y.

(** An optional numeric bound that is absent or non-negative. *)
Definition non_negative (v : option Z) : Prop :=
  ∀ n, v = Some n → 0 ≤ n.

(** Criteria whose year range is inverted. *)
Definition inverted_range : SearchCriteria.t :=
  {| SearchCriteria.make := lit "Honda";
     SearchCriteria.model := None;
     SearchCriteria.year_min := Some 2020;
     SearchCriteria.year_max := Some 2010;
     SearchCriteria.max_miles := Some 0;
     SearchCriteria.max_price := None |}.

(** An optional VIN that is absent or well formed. *)
Definition vin_ok (v : option str) : Prop :=
  ∀ u, v = Some u → well_formed_vin u.

(** Keyword arguments of a detail record as the model may return them. *)
Definition sample_detail_kwargs (v : option str) (y : Z) : CarDetail.kwargs :=
  {| CarDetail.k_base := sample_listing_kwargs y;
     CarDetail.k_vin := v;
     CarDetail.k_engine := Some (lit "1.5L I4 Turbo");
     CarDetail.k_transmission := None;
     CarDetail.k_drive_type := None;
     CarDetail.k_fuel_type := None;
     CarDetail.k_color := None;
     CarDetail.k_interior_color := None;
     CarDetail.k_keys := None;
     CarDetail.k_airbags := None;
     CarDetail.k_seller := None;
     CarDetail.k_title_type := None;
     CarDetail.k_images := None;
     CarDetail.k_description := None |}.


(** Three decoded items: a complete one, one without [id], and one with
    an [id], no URL and the year 9999. *)
Definition three_items : list CarListing.kwargs :=
  [sample_listing_kwargs 2020;
   {| CarListing.k_id := None;
      CarListing.k_source_site := None;
      CarListing.k_url := None;
      CarListing.k_year := Some 2019;
      CarListing.k_make := Some (lit "Ford");
      CarListing.k_model := None;
      CarListing.k_trim := None;
      CarListing.k_miles := None;
      CarListing.k_current_bid := None;
      CarListing.k_buy_now_price := None;
      CarListing.k_condition := None;
      CarListing.k_damage_type := None;
      CarListing.k_secondary_damage := None;
      CarListing.k_location := None;
      CarListing.k_sale_date := None;
      CarListing.k_thumbnail_url := None;
      CarListing.k_scraped_at := None |};
   {| CarListing.k_id := Some (lit "777");
      CarListing.k_source_site := Some (lit "iaai");
      CarListing.k_url := None;
      CarListing.k_year := Some 9999;
      CarListing.k_make := Some (lit "Toyota");
      CarListing.k_model := None;
      CarListing.k_trim := None;
      CarListing.k_miles := None;
      CarListing.k_current_bid := None;
      CarListing.k_buy_now_price := None;
      CarListing.k_condition := None;
      CarListing.k_damage_type := None;
      CarListing.k_secondary_damage := None;
      CarListing.k_location := None;
      CarListing.k_sale_date := None;
      CarListing.k_thumbnail_url := None;
      CarListing.k_scraped_at := None |}].

(** A decoded detail object without [id] and [url] and with a VIN in
    lower case. *)
Definition anonymous_detail : CarDetail.kwargs :=
  {| CarDetail.k_base :=
       {| CarListing.k_id := None;
          CarListing.k_source_site := None;
          CarListing.k_url := Some [];
          CarListing.k_year := Some 2020;
          CarListing.k_make := Some (lit "Honda");
          CarListing.k_model := None;
          CarListing.k_trim := None;
          CarListing.k_miles := None;
          CarListing.k_current_bid := None;
          CarListing.k_buy_now_price := None;
          CarListing.k_condition := None;
          CarListing.k_damage_type := None;
          CarListing.k_secondary_damage := None;
          CarListing.k_location := None;
          CarListing.k_sale_date := None;
          CarListing.k_thumbnail_url := None;
          CarListing.k_scraped_at := None |};
     CarDetail.k_vin := Some (lit "1hgcv1f34la000000");
     CarDetail.k_engine := None;
     CarDetail.k_transmission := None;
     CarDetail.k_drive_type := None;
     CarDetail.k_fuel_type := None;
     CarDetail.k_color := None;
     CarDetail.k_interior_color := None;
     CarDetail.k_keys := None;
     CarDetail.k_airbags := None;
     CarDetail.k_seller := None;
     CarDetail.k_title_type := None;
     CarDetail.k_images := None;
     CarDetail.k_description := None |}.

(** A model that answers every page with the same fenced text, and a
    decoder that reads that text, once cleaned, as the items above. *)
Definition canned : oracle :=
  {| ask_listings := λ _, Ok (fenced (lit "json") (lit "[three items]"));
     ask_detail := λ _ _, Ok (fenced (lit "json") (lit "{one detail}"));
     loads_array := λ text,
       if decide (text = lit "[three items]") then Ok three_items
       else Raise ValueError;
     loads_object := λ text,
       if decide (text = lit "{one detail}") then Ok anonymous_detail
       else Raise ValueError |}.

(** A call whose record, if it is a detail upsert, has a VIN that is
    absent or well formed, as every constructed record has. *)
Definition validated (w : write) : Prop :=
  match w with
  | UpsertDetail _ _ d => vin_ok (CarDetail.vin d)
  | _ => True
  end.

(** Every key of the details relation is a well-formed VIN. *)
Definition detail_keys_well_formed (s : state) : Prop :=
  ∀ v, v ∈ dom (details_tbl s) → well_formed_vin v.

(** The events of a run before the releases: none, the start alone, or
    the start followed by one completion that reports no listing found. *)
Definition run_events (tr : list Main.event) : Prop :=
  tr = []
  ∨ (∃ rid, tr = [Main.RunStarted rid])
  ∨ (∃ rid errs status,
       tr = [Main.RunStarted rid; Main.RunCompleted rid 0 0 errs status]
       ∧ status ∈ terminal_statuses).

(** Inside the [try] block before the run is finalized: the events are
    the start at most, and the listing counter, once bound, is 0. *)
Definition before_completion (s : Main.state) : Prop :=
  (Main.trace s = [] ∧ Main.run_id (Main.vars s) = None
   ∨ ∃ rid, Main.trace s = [Main.RunStarted rid]
            ∧ Main.run_id (Main.vars s) = Some rid)
  ∧ (Main.total_listings (Main.vars s) = None
     ∨ Main.total_listings (Main.vars s) = Some 0).

(** Inside the page loop of run [rid]: the start is the only event, and
    the listing counter is 0. *)
Definition in_page_loop (rid : Z) (s : Main.state) : Prop :=
  Main.trace s = [Main.RunStarted rid]
  ∧ Main.run_id (Main.vars s) = Some rid
  ∧ Main.total_listings (Main.vars s) = Some 0.

(** What the [finally] block contributes to the events: both releases,
    the browser's alone when closing the pool raised, or none when
    closing the browser raised. *)
Definition releases (E : Main.env) : list Main.event :=
  match Main.browser_close E, Main.storage_close E with
  | Ok _, Ok _ => [Main.BrowserClosed; Main.StorageClosed]
  | Ok _, Raise _ => [Main.BrowserClosed]
  | Raise _, _ => []
  end.

(** Whether [_search] gets as far as its [try] statement. *)
Definition enters_try (E : Main.env) (criteria : SearchCriteria.t) : Prop :=
  Main.settings E = Ok tt
  ∧ SearchCriteria.init (Main.now_year E) criteria = Ok criteria.


(** A listing has no usable URL. *)
Definition lacks_url (l : CarListing.t) : Prop :=
  truthy (CarListing.url l) = false.

Global Instance lacks_url_dec l : Decision (lacks_url l).
Proof. unfold lacks_url. apply _. Defined.

(** An uneventful detail pass with the canned model: no saved session,
    a login that succeeds, every page loads. *)
Definition calm_fetch : Main.fetch_env :=
  {| Main.f_now_year := 2024;
     Main.f_settings := Ok tt;
     Main.f_connect := Ok tt;
     Main.f_fault_query := None;
     Main.f_utcnow := 6000;
     Main.f_browser_start := Ok tt;
     Main.f_load_cookies := Ok false;
     Main.f_login := Ok true;
     Main.f_save_cookies := Ok tt;
     Main.f_go_to_listing := λ url,
       if decide (url = lit "https://www.copart.com/lot/404")
       then Raise TimeoutError else Ok small_page;
     Main.f_extractor := canned;
     Main.f_extract_clock := λ n, 6100 + Z.of_nat n;
     Main.f_fault_upsert := λ _, None;
     Main.f_clk_upsert := λ n, (mk_clock 6200 6201, mk_clock 6202 6203);
     Main.f_browser_close := Ok tt;
     Main.f_storage_close := Ok tt |}.

(** A listing object for lot [i] with the given URL. *)
Definition listed (i : str) (u : option str) : CarListing.t :=
  {| CarListing.id := i;
     CarListing.source_site := lit "copart";
     CarListing.url := u;
     CarListing.year := None;
     CarListing.make := None;
     CarListing.model := None;
     CarListing.trim := None;
     CarListing.miles := None;
     CarListing.current_bid := None;
     CarListing.buy_now_price := None;
     CarListing.condition := None;
     CarListing.damage_type := None;
     CarListing.secondary_damage := None;
     CarListing.location := None;
     CarListing.sale_date := None;
     CarListing.thumbnail_url := None;
     CarListing.scraped_at := 0 |}.

(** Three candidates: one without URL, one whose page times out, one
    that is fetched. *)
Definition three_candidates : list CarListing.t :=
  [listed (lit "1") None;
   listed (lit "404") (Some (lit "https://www.copart.com/lot/404"));
   listed (lit "555") (Some (lit "https://www.copart.com/lot/555"))].

(** A variable that is unset or empty in the environment. *)
Definition unset (environ : gmap str str) (var : str) : Prop :=
  truthy (environ !! var) = false.

Global Instance unset_dec environ var : Decision (unset environ var).
Proof. unfold unset. apply _. Defined.

(** An environment with the four variables set. *)
Definition full_environ : gmap str str :=
  <[lit "DATABASE_URL" := lit "postgres://localhost/cars"]>
    (<[lit "ANTHROPIC_API_KEY" := lit "key"]>
       (<[lit "COPART_USERNAME" := lit "user"]>
          (<[lit "COPART_PASSWORD" := lit "secret"]> ∅))).
(** * Properties *)

(** ** Record model: the field validators *)

Lemma vin_char_alphabet (c : ascii) :
  CarDetail.vin_char c = true ↔ c ∈ vin_alphabet.
Proof.
  assert (H : CarDetail.vin_char c = bool_decide (c ∈ vin_alphabet)).
  { destruct c as [[] [] [] [] [] [] [] []]; vm_compute; reflexivity. }
  rewrite H, bool_decide_eq_true. reflexivity.
Qed.

Lemma forallb_vin_alphabet (u : str) :
  forallb CarDetail.vin_char u = true ↔ Forall (λ c, c ∈ vin_alphabet) u.
Proof.
  rewrite forallb_forall, Forall_forall.
  split; intros H c Hc.
  - apply vin_char_alphabet, H, list_elem_of_In, Hc.
  - apply vin_char_alphabet, H, list_elem_of_In, Hc.
Qed.

(** On a string of seventeen characters the pattern tests the
    alphabet and nothing else. *)
Lemma re_match_vin_17 (u : str) :
  length u = 17%nat →
  CarDetail.re_match_vin u = forallb CarDetail.vin_char u.
Proof.
  intros Hlen. unfold CarDetail.re_match_vin.
  rewrite (take_ge u 17), (drop_ge u 17) by lia.
  rewrite Hlen. simpl. rewrite !andb_true_r. reflexivity.
Qed.

Lemma validate_vin_eq (s : str) :
  CarDetail.validate_vin (Some s) =
    if decide (well_formed_vin (upper (strip s)))
    then Some (upper (strip s)) else None.
Proof.
  unfold CarDetail.validate_vin. cbv zeta.
  set (u := upper (strip s)).
  destruct (decide (well_formed_vin u)) as [[Hlen Hall]|Hno].
  - rewrite re_match_vin_17 by exact Hlen.
    apply forallb_vin_alphabet in Hall. rewrite Hall.
    apply Nat.eqb_eq in Hlen. rewrite Hlen. reflexivity.
  - destruct (length u =? 17)%nat eqn:Hlen; [|reflexivity].
    apply Nat.eqb_eq in Hlen.
    rewrite re_match_vin_17 by exact Hlen.
    destruct (forallb CarDetail.vin_char u) eqn:Hall; [|reflexivity].
    exfalso. apply Hno. split; [exact Hlen|].
    apply forallb_vin_alphabet, Hall.
Qed.

Example validate_vin_samples :
  CarDetail.validate_vin (Some (lit " 1hgcv1f34la000000 "))
    = Some (lit "1HGCV1F34LA000000")
  ∧ CarDetail.validate_vin (Some (lit "1HGCV1F34LAO00000")) = None
  ∧ CarDetail.validate_vin (Some (lit "1HGCV1F34LA00000")) = None
  ∧ CarDetail.validate_vin (Some (lit "1HGCV1F34LA0000000")) = None
  ∧ CarDetail.validate_vin (Some []) = None.
Proof. vm_compute. repeat split. Qed.

(** C5.  The VIN validator accepts a string exactly when its trimmed,
    upper-cased form has seventeen characters, all of them letters
    other than I, O, Q or digits; it then stores that upper-cased form.
    Every other string is mapped to [None]: the validator has no
    raising path, so the record is never rejected for its VIN.  An
    absent VIN stays absent. *)
Theorem validate_vin_accepts_exactly (s : str) :
  (CarDetail.validate_vin (Some s) = Some (upper (strip s))
     ↔ well_formed_vin (upper (strip s)))
  ∧ (CarDetail.validate_vin (Some s) = None
     ↔ ¬ well_formed_vin (upper (strip s)))
  ∧ CarDetail.validate_vin None = None.
Proof.
  rewrite validate_vin_eq.
  destruct (decide (well_formed_vin (upper (strip s)))) as [Hwf|Hwf].
  - split; [split; [intros _; exact Hwf|reflexivity]|].
    split; [split; [discriminate|contradiction]|reflexivity].
  - split; [split; [discriminate|contradiction]|].
    split; [split; [intros _; exact Hwf|reflexivity]|reflexivity].
Qed.

Lemma year_out_of_range_spec (now_year v : Z) :
  year_out_of_range now_year v = false ↔ year_in_range now_year v.
Proof. unfold year_out_of_range, year_in_range. lia. Qed.





(** ** Persistence: [upsert_listing] *)

(** [COALESCE] overwrites exactly when the incoming value is non-null. *)
Lemma coalesce_spec {A} (incoming stored : option A) :
  (incoming ≠ None → coalesce incoming stored = incoming)
  ∧ (incoming = None → coalesce incoming stored = stored).
Proof.
  destruct incoming; simpl; split; intros H; congruence.
Qed.

Lemma coalesce_keeps {A} (incoming stored : option A) :
  stored ≠ None → coalesce incoming stored ≠ None.
Proof. destruct incoming; simpl; congruence. Qed.

Lemma coalesce_idem {A} (a b : option A) :
  coalesce a (coalesce a b) = coalesce a b.
Proof. destruct a; reflexivity. Qed.

Lemma coalesce_self {A} (a : option A) : coalesce a a = a.
Proof. destruct a; reflexivity. Qed.

Lemma key_listing_params l v now :
  listings.key (listing_params l v now) = key_of l.
Proof. reflexivity. Qed.

Lemma upsert_listing_detail clk d s :
  upsert_listing clk (Detail d) s =
    (Ok tt,
     set_listings
       (insert_listing clk
          (listing_params (CarDetail.base d) (CarDetail.vin d) (utcnow clk))
          (listings_tbl s)) s).
Proof. reflexivity. Qed.

(** C4.  Given an instance of the base class [CarListing],
    [upsert_listing] raises [AttributeError] while evaluating
    [listing.vin] and stores nothing; [upsert_listings] therefore
    raises on every non-empty batch of such instances, as returned by
    [extract_listings], before any row is written. *)
Theorem upsert_listing_base_class_raises
    (clk : clock) (clks : nat → clock) (l : CarListing.t)
    (rest : list CarListing.t) (s : state) :
  upsert_listing clk (Listing l) s = (Raise AttributeError, s)
  ∧ upsert_listings clks (Listing <$> l :: rest) s = (Raise AttributeError, s).
Proof. split; reflexivity. Qed.




(** ** Persistence: repeating an upsert *)

Lemma touch_updated_at (r : listings.row) :
  touch (listings.updated_at r) r = r.
Proof. destruct r. reflexivity. Qed.

(** A second proposal of the same record against the row the first one
    inserted moves the watermark only. *)
Lemma do_update_after_insert l v t1 t2 now :
  listings.do_update now (listing_params l v t2) (listing_params l v t1)
  = touch now (listing_params l v t1).
Proof.
  unfold listings.do_update, touch. simpl.
  rewrite !coalesce_self. reflexivity.
Qed.

(** Likewise against the row the first one merged. *)
Lemma do_update_after_update l v t1 t2 now1 now2 old :
  listings.do_update now2 (listing_params l v t2)
    (listings.do_update now1 (listing_params l v t1) old)
  = touch now2 (listings.do_update now1 (listing_params l v t1) old).
Proof.
  unfold listings.do_update, touch. simpl.
  rewrite !coalesce_idem. reflexivity.
Qed.

Lemma set_listings_same (s : state) : set_listings (listings_tbl s) s = s.
Proof. destruct s. reflexivity. Qed.

(** C2, as amended.  Applying [upsert_listing] a second time with the
    same record ends as the first application did and changes nothing
    but the watermark: when the first call raised, the state is
    untouched by both; when it succeeded, the second call replaces the
    record's row by the same row with [updated_at] set to the server
    time of the second statement, so the state is identical to that
    after one application exactly when that time equals the watermark
    already stored. *)
Theorem upsert_listing_twice (clk1 clk2 : clock) (o : instance) (s : state) :
  ∃ r s1 s2,
    upsert_listing clk1 o s = (r, s1)
    ∧ upsert_listing clk2 o s1 = (r, s2)
    ∧ match r with
      | Raise _ => s1 = s ∧ s2 = s
      | Ok _ =>
          ∃ row,
            listings_tbl s1 !! key_of (as_listing o) = Some row
            ∧ s2 = set_listings
                     (<[key_of (as_listing o) := touch (db_now clk2) row]>
                        (listings_tbl s1)) s1
            ∧ (db_now clk2 = listings.updated_at row ↔ s2 = s1)
      end.
Proof.
  destruct o as [l|d].
  { exists (Raise AttributeError), s, s. repeat split. }
  set (k := key_of (CarDetail.base d)).
  assert (Hfinal : ∀ (t : gmap (str * str) listings.row) row now,
    t !! k = Some row →
    now = listings.updated_at row ↔
    set_listings (<[k := touch now row]> t) (set_listings t s) = set_listings t s).
  { intros t row now Hrow. split.
    - intros ->. rewrite touch_updated_at, insert_id by exact Hrow. reflexivity.
    - intros Heq.
      apply (f_equal (λ s, listings.updated_at <$> listings_tbl s !! k)) in Heq.
      simpl in Heq. rewrite lookup_insert_eq, Hrow in Heq. simpl in Heq.
      congruence. }
  destruct (listings_tbl s !! k) as [old|] eqn:Hold.
  - eexists (Ok tt), _, _.
    split; [rewrite upsert_listing_detail; reflexivity|].
    rewrite upsert_listing_detail. simpl. unfold insert_listing.
    rewrite !key_listing_params. fold k. rewrite Hold.
    rewrite lookup_insert_eq, do_update_after_update.
    split; [reflexivity|].
    eexists. split; [reflexivity|]. split; [reflexivity|].
    apply Hfinal, lookup_insert_eq.
  - eexists (Ok tt), _, _.
    split; [rewrite upsert_listing_detail; reflexivity|].
    rewrite upsert_listing_detail. simpl. unfold insert_listing.
    rewrite !key_listing_params. fold k. rewrite Hold.
    rewrite lookup_insert_eq, do_update_after_insert.
    split; [reflexivity|].
    eexists. split; [reflexivity|]. split; [reflexivity|].
    apply Hfinal, lookup_insert_eq.
Qed.

(** C2, counterexample.  The same record stored at server time 1001 and
    again at server time 2001: the second application leaves a state
    that differs from the state after the first, in [updated_at]. *)
Lemma upsert_listing_twice_differs :
  let d := sample_detail (Some sample_vin) (Some 2020) (Some 8500) in
  let once := (upsert_listing (mk_clock 1000 1001) (Detail d) empty_state).2 in
  let twice := (upsert_listing (mk_clock 2000 2001) (Detail d) once).2 in
  twice ≠ once
  ∧ listings.updated_at <$> listings_tbl once !! sample_key = Some 1000
  ∧ listings.updated_at <$> listings_tbl twice !! sample_key = Some 2001.
Proof.
  intros d once twice.
  assert (H1 : listings.updated_at <$> listings_tbl once !! sample_key = Some 1000)
    by (vm_compute; reflexivity).
  assert (H2 : listings.updated_at <$> listings_tbl twice !! sample_key = Some 2001)
    by (vm_compute; reflexivity).
  split; [|split; assumption].
  intros Heq. rewrite Heq in H2. congruence.
Qed.

(** ** Persistence: [upsert_detail] without a VIN *)




(** With a VIN the detail row is written: inserted when the VIN is new,
    and otherwise merged column by column, [images] included. *)
Lemma upsert_detail_with_vin (clk1 clk2 : clock) (d : CarDetail.t) (s : state)
    (c : ascii) (v : str) :
  CarDetail.vin d = Some (c :: v) →
  ∃ s' new,
    upsert_detail clk1 clk2 d s = (Ok tt, s')
    ∧ details_tbl s' !! (c :: v) = Some new
    ∧ stdout s' = stdout s
    ∧ match details_tbl s !! (c :: v) with
      | None => new = detail_params d (c :: v) (utcnow clk2)
      | Some old =>
          details.engine new = coalesce (CarDetail.engine d) (details.engine old)
          ∧ details.color new = coalesce (CarDetail.color d) (details.color old)
          ∧ details.images new = Some (CarDetail.images d)
          ∧ details.scraped_at new = db_now clk2
      end.
Proof.
  intros Hv. unfold upsert_detail, bindM.
  rewrite upsert_listing_detail, Hv. simpl. unfold insert_detail. simpl.
  destruct (details_tbl s !! (c :: v)) as [old|] eqn:Hold.
  - eexists _, _. split; [reflexivity|]. simpl. rewrite Hold.
    split; [apply lookup_insert_eq|]. repeat split.
  - eexists _, _. split; [reflexivity|]. simpl. rewrite Hold.
    split; [apply lookup_insert_eq|]. repeat split.
Qed.

(** ** Persistence: [get_listings_without_details] *)

Global Instance recent_first_total : Total recent_first.
Proof. intros a b. unfold recent_first. lia. Qed.

Global Instance recent_first_trans : Transitive recent_first.
Proof. intros a b c. unfold recent_first. lia. Qed.

(** The rows that pass the join and the [WHERE] clause are the stored
    rows with a VIN that no detail row carries. *)
Lemma elem_of_without_details (s : state) (r : listings.row) :
  r ∈ (fst <$> filter (λ ld, Is_true (where_no_detail ld)) (left_join s))
  ↔ stored s r ∧ lacks_detail s r.
Proof.
  rewrite list_elem_of_fmap. unfold left_join, stored, lacks_detail. split.
  - intros ([r' od] & -> & Hin). simpl.
    apply list_elem_of_filter in Hin as [Hw Hin].
    apply list_elem_of_fmap in Hin as ([k row] & Heq & Hin).
    simpl in Heq. injection Heq as -> ->.
    apply elem_of_map_to_list in Hin.
    split; [exists k; exact Hin|].
    unfold where_no_detail in Hw. simpl in Hw.
    apply andb_prop_elim in Hw as [Hvin Hd].
    apply bool_decide_unpack in Hvin. apply bool_decide_unpack in Hd.
    destruct (listings.vin row) as [v|]; [|congruence].
    exists v. split; [reflexivity|exact Hd].
  - intros [[k Hk] (v & Hv & Hd)].
    exists (r, listings.vin r ≫= λ v, details_tbl s !! v). split; [reflexivity|].
    apply list_elem_of_filter. split.
    + apply Is_true_true. unfold where_no_detail. simpl.
      rewrite Hv. simpl. rewrite Hd. reflexivity.
    + apply list_elem_of_fmap. exists (k, r). split; [reflexivity|].
      apply elem_of_map_to_list. exact Hk.
Qed.




(** On the four lots the query returns lot 4, then lot 2; a negative
    limit is refused by the server. *)
Example get_listings_without_details_four_lots :
  lots_of (get_listings_without_details 2024 5000 1 four_lots)
    = Some [lit "4"]
  ∧ lots_of (get_listings_without_details 2024 5000 50 four_lots)
    = Some [lit "4"; lit "2"]
  ∧ (get_listings_without_details 2024 5000 (-1) four_lots).1
    = Raise PostgresError.
Proof. vm_compute. repeat split. Qed.

(** ** Python strings: searching and slicing *)

(** The string operations on the inputs of Python's own documentation
    and a few edge cases. *)
Example str_operations :
  find (lit "bc") (lit "abcbc") = 1
  ∧ rfind (lit "bc") (lit "abcbc") = 3
  ∧ find (lit "x") (lit "abc") = -1
  ∧ rfind (lit "x") (lit "abc") = -1
  ∧ find [] (lit "abc") = 0
  ∧ rfind [] (lit "abc") = 3
  ∧ slice (lit "abcdef") (Some 1) (Some 4) = lit "bcd"
  ∧ slice (lit "abcdef") (Some 4) (Some 100) = lit "ef"
  ∧ slice (lit "abcdef") (Some (-2)) None = lit "ef"
  ∧ slice (lit "abcdef") None (Some 0) = []
  ∧ strip (lit "  ab c  ") = lit "ab c"
  ∧ upper (lit "aZ19-z") = lit "AZ19-Z"
  ∧ lower (lit "<TABLE Id=1>") = lit "<table id=1>"
  ∧ split_lines [] = [[]]
  ∧ split_lines (lit "a" ++ nl :: nl :: lit "b" ++ [nl])
    = [lit "a"; []; lit "b"; []]
  ∧ join_lines [lit "a"; []; lit "b"] = lit "a" ++ nl :: nl :: lit "b".
Proof. vm_compute. repeat split. Qed.

Lemma startswith_spec (p s : str) :
  startswith p s = true ↔ ∃ rest, s = p ++ rest.
Proof.
  revert s. induction p as [|a p IH]; intros s; simpl.
  - split; [intros _; exists s; reflexivity|reflexivity].
  - destruct s as [|b s].
    + split; [discriminate|intros [rest H]; discriminate H].
    + destruct (decide (a = b)) as [->|Hne].
      * rewrite IH. split; intros [rest H]; exists rest; congruence.
      * split; [discriminate|intros [rest H]; congruence].
Qed.

(** [find] returns the lowest index of an occurrence. *)
Lemma find_from_spec (sub s : str) (i : Z) :
  (find_from sub s i = -1 ∧ ∀ k, ¬ occurs_at sub s k) ∨
  (∃ k, find_from sub s i = i + Z.of_nat k ∧ occurs_at sub s k
        ∧ ∀ j, (j < k)%nat → ¬ occurs_at sub s j).
Proof.
  revert i. induction s as [|c s IH]; intros i; simpl.
  - destruct (startswith sub []) eqn:Hs.
    + right. exists O. split; [lia|]. split; [split; [simpl; lia|exact Hs]|].
      intros j Hj. lia.
    + left. split; [reflexivity|]. intros k [Hk Hocc].
      simpl in Hk. replace k with O in Hocc by lia. simpl in Hocc. congruence.
  - destruct (startswith sub (c :: s)) eqn:Hs.
    + right. exists O. split; [lia|].
      split; [split; [simpl; lia|exact Hs]|]. intros j Hj. lia.
    + destruct (IH (i + 1)) as [[Hr Hno]|(k & Hr & [Hk Hocc] & Hmin)].
      * left. split; [exact Hr|]. intros [|k] [Hk Hocc].
        -- simpl in Hocc. congruence.
        -- apply (Hno k). split; [simpl in Hk; lia|exact Hocc].
      * right. exists (S k). split; [lia|].
        split; [split; [simpl; lia|exact Hocc]|].
        intros [|j] Hj [Hjl Hjo].
        -- simpl in Hjo. congruence.
        -- apply (Hmin j); [lia|]. split; [simpl in Hjl; lia|exact Hjo].
Qed.

Lemma find_first_occurrence (sub s : str) :
  (find sub s = -1 ∧ ∀ k, ¬ occurs_at sub s k) ∨
  (∃ k, find sub s = Z.of_nat k ∧ occurs_at sub s k
        ∧ ∀ j, (j < k)%nat → ¬ occurs_at sub s j).
Proof.
  unfold find.
  destruct (find_from_spec sub s 0) as [H|(k & Hr & H)].
  - left. exact H.
  - right. exists k. split; [lia|exact H].
Qed.

(** [rfind_from] returns the fallback or the index of an occurrence. *)
Lemma rfind_from_occurrence (sub s : str) (i last : Z) :
  rfind_from sub s i last = last
  ∨ ∃ k, rfind_from sub s i last = i + Z.of_nat k ∧ occurs_at sub s k.
Proof.
  revert i last. induction s as [|c s IH]; intros i last; simpl.
  - destruct (startswith sub []) eqn:Hs; [|left; reflexivity].
    right. exists O. split; [lia|]. split; [simpl; lia|exact Hs].
  - destruct (IH (i + 1) (if startswith sub (c :: s) then i else last))
      as [Hr|(k & Hr & [Hk Hocc])].
    + rewrite Hr. destruct (startswith sub (c :: s)) eqn:Hs; [|left; reflexivity].
      right. exists O. split; [lia|]. split; [simpl; lia|exact Hs].
    + right. exists (S k). split; [lia|]. split; [simpl; lia|exact Hocc].
Qed.

(** [rfind] returns the highest index of an occurrence. *)
Lemma rfind_from_highest (sub s : str) (i last : Z) (k : nat) :
  last < i → occurs_at sub s k → i + Z.of_nat k ≤ rfind_from sub s i last.
Proof.
  revert i last k. induction s as [|c s IH]; intros i last k Hlast [Hk Hocc].
  - simpl in Hk. replace k with O in * by lia. simpl in *. rewrite Hocc. lia.
  - simpl. destruct k as [|k].
    + simpl in Hocc. rewrite Hocc.
      destruct (rfind_from_occurrence sub s (i + 1) i) as [Hr|(j & Hr & _)]; lia.
    + etransitivity; [|apply (IH (i + 1) _ k)].
      * lia.
      * destruct (startswith sub (c :: s)); lia.
      * split; [simpl in Hk; lia|exact Hocc].
Qed.

Lemma rfind_last_occurrence (sub s : str) :
  (rfind sub s = -1 ∧ ∀ k, ¬ occurs_at sub s k) ∨
  (∃ k, rfind sub s = Z.of_nat k ∧ occurs_at sub s k
        ∧ ∀ j, occurs_at sub s j → (j ≤ k)%nat).
Proof.
  unfold rfind.
  destruct (rfind_from_occurrence sub s 0 (-1)) as [Hr|(k & Hr & Hocc)].
  - left. split; [exact Hr|]. intros k Hocc.
    pose proof (rfind_from_highest sub s 0 (-1) k ltac:(lia) Hocc). lia.
  - right. exists k. split; [lia|]. split; [exact Hocc|].
    intros j Hj.
    pose proof (rfind_from_highest sub s 0 (-1) j ltac:(lia) Hj). lia.
Qed.

Lemma take_clamped {A} (l : list A) (k : Z) :
  take (Z.to_nat (Z.min k (len l))) l = take (Z.to_nat k) l.
Proof.
  unfold len. destruct (decide (k ≤ Z.of_nat (length l))) as [Hle|Hgt].
  - rewrite Z.min_l by lia. reflexivity.
  - rewrite Z.min_r by lia. rewrite !take_ge by lia. reflexivity.
Qed.

(** [s[a:a+m]] for non-negative [a] and [m]. *)
Lemma slice_window (s : str) (a m : Z) :
  0 ≤ a → 0 ≤ m →
  slice s (Some a) (Some (a + m)) = take (Z.to_nat m) (drop (Z.to_nat a) s).
Proof.
  intros Ha Hm. unfold slice, clamp. simpl.
  destruct (a <? 0) eqn:Ha'; [lia|]. destruct (a + m <? 0) eqn:Hb'; [lia|].
  destruct (decide (a ≤ len s)) as [Hle|Hgt].
  - rewrite (Z.min_l a) by lia.
    rewrite <- (take_clamped (drop (Z.to_nat a) s) m).
    f_equal. f_equal. unfold len in *. rewrite length_drop. lia.
  - rewrite (Z.min_r a) by lia. unfold len in *.
    rewrite !drop_ge by lia. rewrite !take_nil. reflexivity.
Qed.

(** [s[:k]] for non-negative [k]. *)
Lemma slice_prefix (s : str) (k : Z) :
  0 ≤ k → slice s None (Some k) = take (Z.to_nat k) s.
Proof.
  intros Hk. unfold slice, clamp. simpl.
  destruct (k <? 0) eqn:Hk'; [lia|].
  assert (H0 : Z.min 0 (len s) = 0) by (unfold len; lia).
  rewrite H0, Z.sub_0_r. simpl. apply take_clamped.
Qed.

(** ** Extraction: windowing the markup *)

Lemma in_first_half_test (html marker : str) :
  (0 <? find marker (lower html)) && (find marker (lower html) <? len html / 2)
    = true
  ↔ in_first_half html marker.
Proof. unfold in_first_half. rewrite andb_true_iff. lia. Qed.

Lemma best_start_rule (html : str) (markers : list str) :
  window_start_rule html markers (best_start html markers)
  ∧ 0 ≤ best_start html markers.
Proof.
  induction markers as [|m rest [IH Hpos]]; simpl.
  - split; [|lia]. left. split; [constructor|reflexivity].
  - destruct ((0 <? find m (lower html)) && (find m (lower html) <? len html / 2))
      eqn:Htest.
    + apply in_first_half_test in Htest. split; [|lia].
      right. exists [], m, rest.
      split; [reflexivity|]. split; [apply Forall_nil_2|].
      split; [exact Htest|reflexivity].
    + assert (Hno : ¬ in_first_half html m).
      { intros H. apply in_first_half_test in H. congruence. }
      split; [|exact Hpos].
      destruct IH as [[Hall ->]|(pre & m' & post & -> & Hpre & Hm' & Hst)].
      * left. split; [constructor; assumption|reflexivity].
      * right. exists (m :: pre), m', post.
        split; [reflexivity|]. split; [constructor; assumption|].
        split; assumption.
Qed.

Lemma rfind_lower_bound (sub s : str) : -1 ≤ rfind sub s.
Proof.
  destruct (rfind_last_occurrence sub s) as [[H _]|(k & H & _)]; lia.
Qed.

(** Cutting just after the last [>] leaves a string that ends in [>]. *)
Lemma take_after_last_close (w : str) :
  0 ≤ rfind (lit ">") w →
  ∃ b, take (Z.to_nat (rfind (lit ">") w + 1)) w = b ++ lit ">".
Proof.
  intros Hpos.
  destruct (rfind_last_occurrence (lit ">") w) as [[H _]|(k & H & [Hk Hocc] & _)];
    [lia|].
  rewrite H. replace (Z.to_nat (Z.of_nat k + 1)) with (S k) by lia.
  apply startswith_spec in Hocc as [rest Hrest].
  exists (take k w). apply take_S_r.
  rewrite <- (Nat.add_0_r k), <- lookup_drop, Hrest. reflexivity.
Qed.

(** C8, as amended.  For a page longer than the budget [max_chars],
    [_truncate_html] returns a part [body] of the page followed by the
    27-character truncation note, so at most [max_chars + 27]
    characters.  [body] is taken from the window of [max_chars]
    characters that starts at [start]; it is the window cut just after
    its last [>] when that [>] lies beyond index [max_chars - 2000] of
    the window, and the whole window otherwise.  [start] is 0 when no
    marker has its first occurrence after position 0 and before the
    middle of the page, else 1000 characters before the first occurrence
    of the first such marker in list order, and never before 0. *)
Theorem truncate_html_window (html : str) (max_chars : Z) :
  0 ≤ max_chars < len html →
  ∃ start window body,
    _truncate_html html max_chars = body ++ truncation_note
    ∧ window_start_rule html content_markers start
    ∧ 0 ≤ start
    ∧ window = take (Z.to_nat max_chars) (drop (Z.to_nat start) html)
    ∧ body `prefix_of` window
    ∧ len body ≤ max_chars
    ∧ len (_truncate_html html max_chars) ≤ max_chars + 27
    ∧ if rfind (lit ">") window >? max_chars - 2000
      then body = take (Z.to_nat (rfind (lit ">") window + 1)) window
           ∧ (0 ≤ rfind (lit ">") window → ∃ b, body = b ++ lit ">")
      else body = window.
Proof.
  intros [Hmax Hlen].
  destruct (best_start_rule html content_markers) as [Hrule Hstart].
  set (start := best_start html content_markers) in *.
  set (window := take (Z.to_nat max_chars) (drop (Z.to_nat start) html)).
  assert (Hwin : len window ≤ max_chars).
  { unfold window, len. rewrite length_take. lia. }
  assert (Hnote : len truncation_note = 27) by reflexivity.
  unfold _truncate_html.
  destruct (len html <=? max_chars) eqn:Hshort; [lia|]. cbv zeta.
  fold start. rewrite slice_window by lia. fold window.
  pose proof (rfind_lower_bound (lit ">") window) as Hlow.
  destruct (rfind (lit ">") window >? max_chars - 2000) eqn:Hcut.
  - rewrite slice_prefix by lia.
    set (body := take (Z.to_nat (rfind (lit ">") window + 1)) window).
    assert (Hbody : len body ≤ max_chars).
    { unfold body, len in *. rewrite length_take. lia. }
    exists start, window, body.
    split; [reflexivity|]. split; [exact Hrule|]. split; [exact Hstart|].
    split; [reflexivity|].
    split; [exists (drop (Z.to_nat (rfind (lit ">") window + 1)) window);
            symmetry; apply take_drop|].
    split; [exact Hbody|].
    split; [unfold len in *; rewrite length_app; lia|].
    rewrite Hcut. split; [reflexivity|]. apply take_after_last_close.
  - exists start, window, window.
    split; [reflexivity|]. split; [exact Hrule|]. split; [exact Hstart|].
    split; [reflexivity|]. split; [reflexivity|]. split; [exact Hwin|].
    split; [unfold len in *; rewrite length_app; lia|].
    rewrite Hcut. reflexivity.
Qed.

Lemma truncate_html_window_witness :
  0 ≤ 30 < len small_page
  ∧ ∃ start window body,
      _truncate_html small_page 30 = body ++ truncation_note
      ∧ window_start_rule small_page content_markers start
      ∧ 0 ≤ start
      ∧ window = take (Z.to_nat 30) (drop (Z.to_nat start) small_page)
      ∧ body `prefix_of` window
      ∧ len body ≤ 30
      ∧ len (_truncate_html small_page 30) ≤ 30 + 27
      ∧ if rfind (lit ">") window >? 30 - 2000
        then body = take (Z.to_nat (rfind (lit ">") window + 1)) window
             ∧ (0 ≤ rfind (lit ">") window → ∃ b, body = b ++ lit ">")
        else body = window.
Proof.
  assert (H : 0 ≤ 30 < len small_page) by (vm_compute; split; congruence).
  split; [exact H|]. apply truncate_html_window. exact H.
Defined.

Example truncate_html_small_page :
  _truncate_html small_page 30
    = lit "<html><body><table><tr><td>" ++ truncation_note
  ∧ _truncate_html small_page 64 = small_page.
Proof. vm_compute. split; reflexivity. Qed.

(** C8, counterexample.  A 200,000-character page windowed to a budget
    of 50,000: the result has 50,027 characters, more than the budget,
    and its page part contains no [>] to end at.  And on a page where
    the word "results" occurs at index 1500, before the first table tag
    at index 3007, the window starts at 2007, 1000 characters before
    the table tag, not 1000 characters before the earliest marker. *)
Lemma truncate_html_exceeds_budget :
  len plain_page = 200000
  ∧ _truncate_html plain_page 50000
    = replicate (Z.to_nat 50000) "a"%char ++ truncation_note
  ∧ len (_truncate_html plain_page 50000) = 50027
  ∧ ¬ len (_truncate_html plain_page 50000) ≤ 50000
  ∧ find (lit "results") (lower results_then_table) = 1500
  ∧ find (lit "<table") (lower results_then_table) = 3007
  ∧ 3007 < len results_then_table / 2
  ∧ best_start results_then_table content_markers = 2007.
Proof.
  assert (H : _truncate_html plain_page 50000
              = replicate (Z.to_nat 50000) "a"%char ++ truncation_note).
  { refine (bool_decide_eq_true_1 _ _). vm_compute. reflexivity. }
  assert (Hl : len (_truncate_html plain_page 50000) = 50027)
    by (vm_compute; reflexivity).
  split; [vm_compute; reflexivity|]. split; [exact H|]. split; [exact Hl|].
  split; [rewrite Hl; lia|].
  vm_compute. repeat split.
Qed.

(** ** Python strings: trimming and lines *)

Lemma drop_while_split (p : ascii → bool) (s : str) :
  ∃ pre, s = pre ++ drop_while p s.
Proof.
  induction s as [|c s [pre IH]]; simpl.
  - exists []. reflexivity.
  - destruct (p c).
    + exists (c :: pre). simpl. f_equal. exact IH.
    + exists []. reflexivity.
Qed.

Lemma drop_while_head (p : ascii → bool) (s : str) c t :
  drop_while p s = c :: t → p c = false.
Proof.
  induction s as [|d s IH]; simpl; [discriminate|].
  destruct (p d) eqn:Hd; [exact IH|]. intros H. injection H as <- _. exact Hd.
Qed.

Lemma drop_while_fixed (p : ascii → bool) c t :
  p c = false → drop_while p (c :: t) = c :: t.
Proof. intros H. simpl. rewrite H. reflexivity. Qed.

Lemma drop_while_idem (p : ascii → bool) (s : str) :
  drop_while p (drop_while p s) = drop_while p s.
Proof.
  destruct (drop_while p s) as [|c t] eqn:H; [reflexivity|].
  apply drop_while_fixed. eapply drop_while_head, H.
Qed.

(** Dropping stops at the first character that fails the test. *)
Lemma drop_while_stop (p : ascii → bool) (u v : str) c :
  p c = false → ∃ u', drop_while p (u ++ c :: v) = u' ++ c :: v.
Proof.
  intros Hc. induction u as [|d u [u' IH]]; simpl.
  - rewrite Hc. exists []. reflexivity.
  - destruct (p d).
    + exists u'. exact IH.
    + exists (d :: u). reflexivity.
Qed.

(** [rstrip] returns a prefix of its argument. *)
Lemma rstrip_prefix (x : str) : ∃ tail, x = rstrip x ++ tail.
Proof.
  unfold rstrip.
  destruct (drop_while_split is_space (reverse x)) as [pre H].
  exists (reverse pre).
  rewrite <- reverse_app, <- H, reverse_involutive. reflexivity.
Qed.

Lemma rstrip_idem (x : str) : rstrip (rstrip x) = rstrip x.
Proof.
  unfold rstrip. rewrite reverse_involutive, drop_while_idem. reflexivity.
Qed.

Lemma lstrip_rstrip_lstrip (r : str) :
  lstrip (rstrip (lstrip r)) = rstrip (lstrip r).
Proof.
  destruct (rstrip_prefix (lstrip r)) as [tail H].
  destruct (rstrip (lstrip r)) as [|c t] eqn:Hr; [reflexivity|].
  apply drop_while_fixed.
  unfold lstrip in H. simpl in H. eapply drop_while_head, H.
Qed.

Lemma strip_idem (r : str) : strip (strip r) = strip r.
Proof.
  unfold strip. rewrite lstrip_rstrip_lstrip. apply rstrip_idem.
Qed.

(** A string that ends in a non-space character survives [rstrip] as a
    prefix of whatever is appended to it. *)
Lemma rstrip_keeps_prefix (a x : str) c :
  is_space c = false → ∃ y, rstrip ((a ++ [c]) ++ x) = (a ++ [c]) ++ y.
Proof.
  intros Hc. unfold rstrip.
  rewrite !reverse_app. simpl.
  destruct (drop_while_stop is_space (reverse x) (reverse a) c Hc) as [u' H].
  rewrite H.
  exists (reverse u').
  rewrite reverse_app, reverse_cons, reverse_involutive. reflexivity.
Qed.

Lemma split_lines_nonempty (s : str) : split_lines s ≠ [].
Proof.
  destruct s as [|c s]; simpl; [discriminate|].
  destruct (decide (c = nl)); [discriminate|].
  destruct (split_lines s); discriminate.
Qed.

Lemma split_lines_cons (c : ascii) (s : str) :
  c ≠ nl → ∃ h rest, split_lines s = h :: rest
                     ∧ split_lines (c :: s) = (c :: h) :: rest.
Proof.
  intros Hc. simpl. destruct (decide (c = nl)); [contradiction|].
  destruct (split_lines s) as [|h rest] eqn:Hs.
  - exfalso. eapply split_lines_nonempty, Hs.
  - exists h, rest. split; reflexivity.
Qed.

(** Splitting distributes over a newline. *)
Lemma split_lines_app (a b : str) :
  split_lines (a ++ nl :: b) = split_lines a ++ split_lines b.
Proof.
  induction a as [|c a IH]; simpl.
  - destruct (decide (nl = nl)); [reflexivity|contradiction].
  - destruct (decide (c = nl)); [rewrite IH; reflexivity|].
    rewrite IH.
    destruct (split_lines a) as [|h rest] eqn:Ha; [|reflexivity].
    exfalso. eapply split_lines_nonempty, Ha.
Qed.

Lemma split_lines_one (a : str) : nl ∉ a → split_lines a = [a].
Proof.
  induction a as [|c a IH]; intros Hnl; [reflexivity|].
  simpl. destruct (decide (c = nl)) as [->|Hc].
  - exfalso. apply Hnl. left.
  - rewrite IH; [reflexivity|]. intros H. apply Hnl. right. exact H.
Qed.


(** ** Extraction: cleaning the model's response *)

Lemma fence_chars (x : str) :
  fence ++ x = "`"%char :: "`"%char :: "`"%char :: x.
Proof. reflexivity. Qed.

Lemma startswith_fence_app (x : str) : startswith fence (fence ++ x) = true.
Proof. apply startswith_spec. exists x. reflexivity. Qed.

(** A line that begins with the fence marker is a fence line, whatever
    follows the marker. *)
Lemma is_fence_line_prefix (x : str) : is_fence_line (fence ++ x) = true.
Proof.
  unfold is_fence_line, strip, lstrip.
  rewrite fence_chars, drop_while_fixed by reflexivity.
  destruct (rstrip_keeps_prefix ["`"%char; "`"%char] x "`"%char eq_refl)
    as [y Hy].
  simpl in Hy. rewrite Hy. apply (startswith_fence_app y).
Qed.

Lemma is_fence_line_space (c : ascii) (h : str) :
  is_space c = true → is_fence_line (c :: h) = is_fence_line h.
Proof.
  intros Hc. unfold is_fence_line, strip, lstrip. simpl. rewrite Hc. reflexivity.
Qed.

(** If the text starts, after leading whitespace, with the fence marker,
    one of its lines is a fence line. *)
Lemma leading_fence_line (r : str) :
  startswith fence (lstrip r) = true →
  Exists (λ l, Is_true (is_fence_line l)) (split_lines r).
Proof.
  induction r as [|c r IH]; [discriminate|].
  destruct (is_space c) eqn:Hc.
  - intros H. unfold lstrip in H. simpl in H. rewrite Hc in H.
    specialize (IH H).
    destruct (decide (c = nl)) as [->|Hnl].
    + simpl. destruct (decide (nl = nl)); [|contradiction].
      apply Exists_cons_tl, IH.
    + destruct (split_lines_cons c r Hnl) as (h & rest & Hr & ->).
      rewrite Hr in IH. apply Exists_cons in IH as [Hh|Hrest].
      * apply Exists_cons_hd. rewrite is_fence_line_space by exact Hc. exact Hh.
      * apply Exists_cons_tl, Hrest.
  - intros H. unfold lstrip in H. rewrite drop_while_fixed in H by exact Hc.
    apply startswith_spec in H as [rest H]. rewrite fence_chars in H.
    rewrite H.
    destruct (split_lines_cons "`"%char rest ltac:(discriminate))
      as (h1 & t1 & _ & H1).
    destruct (split_lines_cons "`"%char ("`"%char :: rest) ltac:(discriminate))
      as (h2 & t2 & H2' & H2).
    destruct (split_lines_cons "`"%char ("`"%char :: "`"%char :: rest)
                ltac:(discriminate)) as (h3 & t3 & H3' & H3).
    rewrite H3. rewrite H2 in H3'. injection H3' as <- <-.
    rewrite H1 in H2'. injection H2' as <- <-.
    apply Exists_cons_hd. apply Is_true_true.
    apply (is_fence_line_prefix h1).
Qed.

Lemma no_fence_lines_not_fenced (r : str) :
  no_fence_lines r → startswith fence (strip r) = false.
Proof.
  intros Hno. destruct (startswith fence (strip r)) eqn:H; [|reflexivity].
  exfalso. unfold strip in H.
  destruct (rstrip_prefix (lstrip r)) as [tail Htail].
  apply startswith_spec in H as [rest Hrest].
  assert (Hl : startswith fence (lstrip r) = true).
  { apply startswith_spec. exists (rest ++ tail).
    rewrite Htail at 1. rewrite Hrest, <- app_assoc. reflexivity. }
  apply leading_fence_line, Exists_exists in Hl as (l & Hin & Hl).
  unfold no_fence_lines in Hno. rewrite Forall_forall in Hno.
  exact (Hno l Hin Hl).
Qed.











(** ** The [search] command: finalizing the run *)

(** Runs that end as the claim says: normal completion over two pages
    (each batch of base-class listings fails to store and counts as one
    error), a login that is refused, and an interrupt and a browser
    fault inside the page loop. *)
Example search_runs_finalized_once :
  observe calm 2
    = (Ok tt,
       [Main.RunStarted 1; Main.RunCompleted 1 0 0 2 (lit "completed");
        Main.BrowserClosed; Main.StorageClosed],
       Some (lit "completed"))
  ∧ observe (with_login (Ok false) calm) 2
    = (Ok tt,
       [Main.RunStarted 1; Main.RunCompleted 1 0 0 1 (lit "failed");
        Main.BrowserClosed; Main.StorageClosed],
       Some (lit "failed"))
  ∧ observe (with_page_html (λ _, Raise KeyboardInterrupt) calm) 2
    = (Ok tt,
       [Main.RunStarted 1; Main.RunCompleted 1 0 0 0 (lit "interrupted");
        Main.BrowserClosed; Main.StorageClosed],
       Some (lit "interrupted"))
  ∧ observe (with_page_html (λ p, if p =? 2 then Raise TimeoutError
                                   else Ok small_page) calm) 2
    = (Raise TimeoutError,
       [Main.RunStarted 1; Main.RunCompleted 1 0 0 2 (lit "failed");
        Main.BrowserClosed; Main.StorageClosed],
       Some (lit "failed")).
Proof. vm_compute. repeat split. Qed.

(** C10 at the failing input.  The run row is created, then launching
    the browser fails (or the login navigation times out, or the user
    interrupts during login): the handler reads [total_listings] before
    its first assignment and raises [UnboundLocalError], so no
    [complete_run] statement is executed; the browser and the pool are
    closed and run 1 stays in status "running". *)
Theorem search_fault_before_counters_not_finalized :
  observe (with_browser_start (Raise TimeoutError) calm) 5
    = (Raise UnboundLocalError,
       [Main.RunStarted 1; Main.BrowserClosed; Main.StorageClosed],
       Some (lit "running"))
  ∧ observe (with_login (Raise TimeoutError) calm) 5
    = (Raise UnboundLocalError,
       [Main.RunStarted 1; Main.BrowserClosed; Main.StorageClosed],
       Some (lit "running"))
  ∧ observe (with_login (Raise KeyboardInterrupt) calm) 5
    = (Raise UnboundLocalError,
       [Main.RunStarted 1; Main.BrowserClosed; Main.StorageClosed],
       Some (lit "running"))
  ∧ ¬ finalized_once
        (observe (with_browser_start (Raise TimeoutError) calm) 5).1.2.
Proof.
  assert (H : observe (with_browser_start (Raise TimeoutError) calm) 5
    = (Raise UnboundLocalError,
       [Main.RunStarted 1; Main.BrowserClosed; Main.StorageClosed],
       Some (lit "running"))) by (vm_compute; reflexivity).
  split; [exact H|].
  split; [vm_compute; reflexivity|]. split; [vm_compute; reflexivity|].
  rewrite H. simpl.
  intros (rid & found & fetched & errs & status & _ & Htr).
  discriminate Htr.
Qed.

(** One iteration of the page loop leaves no event and keeps the
    counters bound, however it ends. *)
Lemma page_body_counters_bound (E : Main.env) (max_pages page : Z)
    (s : Main.state) rid tr :
  counters_bound rid tr s →
  counters_bound rid tr (Main.page_body E max_pages page s).2.
Proof.
  intros (Hr & [t Ht] & [e He] & Htr).
  unfold Main.page_body, Main.bindP, Main.lift, Main.ret, Main.read,
    Main.set_vars, Main.storage_call, counters_bound.
  repeat (case_match; simplify_eq/=); eauto 10.
Qed.

Lemma page_loop_counters_bound (fuel : nat) (E : Main.env) (max_pages page : Z)
    (s : Main.state) rid tr :
  counters_bound rid tr s →
  counters_bound rid tr (Main.page_loop fuel E max_pages page s).2.
Proof.
  revert page s. induction fuel as [|fuel IH]; intros page s Hs; [exact Hs|].
  simpl. destruct (page <=? max_pages); [|exact Hs].
  unfold Main.bindP.
  pose proof (page_body_counters_bound E max_pages page s rid tr Hs) as Hb.
  destruct (Main.page_body E max_pages page s) as [[[|page']|e] s1]; simpl in *.
  - exact Hb.
  - apply IH, Hb.
  - exact Hb.
Qed.

(** The [try] block, once login and search have succeeded: the page
    loop runs from a state with the counters bound, then the run is
    marked completed. *)
Lemma try_block_after_setup (E : Main.env) (site : str)
    (criteria : SearchCriteria.t) (max_pages : Z) (st : state) :
  Main.connect E = Ok tt → Main.fault_start_run E = None →
  Main.browser_start E = Ok tt → Main.login E = Ok true →
  Main.save_cookies E = Ok tt → Main.search E = Ok true →
  ∃ s0,
    counters_bound (runs_id_seq st) [Main.RunStarted (runs_id_seq st)] s0
    ∧ Main.try_block E site criteria max_pages (Main.initial st)
      = Main.bindP (Main.page_loop (Z.to_nat max_pages) E max_pages 1) (λ _,
        Main.bindP (Main.read Main.total_listings) (λ total,
        Main.bindP (Main.read Main.errors) (λ errs,
          Main.complete_run E (Main.fault_complete_run E) (runs_id_seq st)
            total 0 errs (lit "completed")))) s0.
Proof.
  intros Hc Hf Hb Hl Hs Hq.
  unfold Main.try_block.
  unfold Main.bindP at 1. unfold Main.lift at 1. rewrite Hc.
  unfold Main.bindP at 1. unfold Main.storage_call at 1. rewrite Hf.
  unfold start_run at 1. cbv beta iota zeta.
  unfold Main.bindP at 1. unfold Main.set_vars at 1.
  unfold Main.bindP at 1. unfold Main.emit at 1.
  unfold Main.bindP at 1. unfold Main.lift at 1. rewrite Hb.
  unfold Main.bindP at 1. unfold Main.lift at 1. rewrite Hl. simpl negb. cbv iota.
  unfold Main.bindP at 1. unfold Main.lift at 1. rewrite Hs.
  unfold Main.bindP at 1. unfold Main.lift at 1. rewrite Hq. simpl negb. cbv iota.
  unfold Main.bindP at 1. unfold Main.set_vars at 1.
  eexists. split; [|reflexivity].
  unfold counters_bound. simpl. eauto.
Qed.

(** Once login and search have succeeded, and as long as
    [complete_run] and the two releases themselves go through, every
    way the page loop can end finalizes the run exactly once before the
    releases: as completed on normal exit, as interrupted on
    [KeyboardInterrupt], as failed on an [Exception].  The one path left
    is a cancellation of the coroutine, which no handler catches. *)
Lemma search_finalized_once_after_setup (E : Main.env) (site : str)
    (criteria : SearchCriteria.t) (max_pages : Z) (st : state) :
  Main.settings E = Ok tt →
  SearchCriteria.init (Main.now_year E) criteria = Ok criteria →
  Main.connect E = Ok tt → Main.fault_start_run E = None →
  Main.browser_start E = Ok tt → Main.login E = Ok true →
  Main.save_cookies E = Ok tt → Main.search E = Ok true →
  Main.fault_complete_run E = None →
  Main.fault_complete_run_handler E = None →
  Main.browser_close E = Ok tt → Main.storage_close E = Ok tt →
  ∃ r s',
    Main._search E site criteria max_pages (Main.initial st) = (r, s')
    ∧ (finalized_once (Main.trace s')
       ∨ (r = Raise CancelledError
          ∧ Main.trace s' = [Main.RunStarted (runs_id_seq st);
                             Main.BrowserClosed; Main.StorageClosed])).
Proof.
  intros Hset Hcrit Hc Hf Hb Hl Hs Hq Hfc Hfh Hbc Hsc.
  destruct (try_block_after_setup E site criteria max_pages st Hc Hf Hb Hl Hs Hq)
    as (s0 & Hs0 & Htry).
  unfold Main._search.
  unfold Main.bindP at 1. unfold Main.lift at 1. rewrite Hset.
  unfold Main.bindP at 1. unfold Main.lift at 1. rewrite Hcrit.
  unfold Main.try_statement. rewrite Htry. clear Htry.
  pose proof (page_loop_counters_bound (Z.to_nat max_pages) E max_pages 1 s0
                _ _ Hs0) as Hloop.
  unfold Main.bindP at 1.
  destruct (Main.page_loop (Z.to_nat max_pages) E max_pages 1 s0) as [r s1].
  destruct Hloop as (Hrid & [total Ht] & [errs He] & Htr). simpl in *.
  destruct r as [[]|e].
  - unfold Main.bindP, Main.read, Main.complete_run, Main.storage_call,
      Main.finally_block, Main.emit, Main.lift, Main.bindP.
    rewrite Ht, He, Hfc, Hbc, Hsc. simpl.
    eexists _, _. split; [reflexivity|]. left. simpl. rewrite Htr.
    exists (runs_id_seq st), total, 0, errs, (lit "completed").
    split; [|reflexivity]. unfold terminal_statuses. set_solver.
  - destruct (decide (e = KeyboardInterrupt)) as [->|Hki].
    + unfold Main.on_interrupt, Main.bindP, Main.read, Main.complete_run,
        Main.storage_call, Main.finally_block, Main.emit, Main.lift, Main.bindP.
      rewrite Hrid, Ht, He, Hfh, Hbc, Hsc. simpl.
      eexists _, _. split; [reflexivity|]. left. simpl. rewrite Htr.
      exists (runs_id_seq st), total, 0, errs, (lit "interrupted").
      split; [|reflexivity]. unfold terminal_statuses. set_solver.
    + destruct (is_Exception e) eqn:Hex.
      * unfold Main.on_exception, Main.bindP, Main.read, Main.complete_run,
          Main.storage_call, Main.finally_block, Main.emit, Main.lift, Main.bindP.
        rewrite Hrid, Ht, He, Hfh, Hbc, Hsc. simpl.
        eexists _, _. split; [reflexivity|]. left. simpl. rewrite Htr.
        exists (runs_id_seq st), total, 0, (errs + 1), (lit "failed").
        split; [|reflexivity]. unfold terminal_statuses. set_solver.
      * unfold Main.finally_block, Main.emit, Main.lift, Main.bindP.
        rewrite Hbc, Hsc. simpl.
        eexists _, _. split; [reflexivity|]. right. simpl. rewrite Htr.
        split; [|reflexivity].
        destruct e; try discriminate Hex; [contradiction|reflexivity].
Qed.

(** * Further properties *)

(** ** Persistence: inserting and looking up *)



(** ** Persistence: what every history of calls preserves *)

Lemma insert_listing_lookup (clk : clock) (ex : listings.row)
    (t : gmap (str * str) listings.row) (k : str * str) :
  insert_listing clk ex t !! k
  = if decide (listings.key ex = k)
    then Some (match t !! listings.key ex with
               | None => ex
               | Some old => listings.do_update (db_now clk) ex old
               end)
    else t !! k.
Proof.
  unfold insert_listing.
  destruct (t !! listings.key ex) as [old|] eqn:Hold;
    rewrite lookup_insert; destruct (decide (listings.key ex = k)); reflexivity.
Qed.

Lemma insert_detail_lookup (clk : clock) (ex : details.row)
    (t : gmap str details.row) (v : str) :
  insert_detail clk ex t !! v
  = if decide (details.vin ex = v)
    then Some (match t !! details.vin ex with
               | None => ex
               | Some old => details.do_update (db_now clk) ex old
               end)
    else t !! v.
Proof.
  unfold insert_detail.
  destruct (t !! details.vin ex) as [old|] eqn:Hold;
    rewrite lookup_insert; destruct (decide (details.vin ex = v)); reflexivity.
Qed.

(** The state [upsert_listing] leaves: unchanged when the argument has
    no [vin] attribute, else the listings relation with the record
    merged in. *)
Lemma upsert_listing_state (clk : clock) (o : instance) (s : state) :
  (upsert_listing clk o s).2
  = match o with
    | Listing _ => s
    | Detail d =>
        set_listings
          (insert_listing clk
             (listing_params (CarDetail.base d) (CarDetail.vin d) (utcnow clk))
             (listings_tbl s)) s
    end.
Proof. destruct o; reflexivity. Qed.

(** The state [upsert_detail] leaves: the listing statement's state,
    then the detail row merged in or the skip line printed. *)
Lemma upsert_detail_state (clk1 clk2 : clock) (d : CarDetail.t) (s : state) :
  (upsert_detail clk1 clk2 d s).2
  = let s1 := (upsert_listing clk1 (Detail d) s).2 in
    match CarDetail.vin d with
    | Some (c :: v) =>
        set_details
          (insert_detail clk2 (detail_params d (c :: v) (utcnow clk2))
             (details_tbl s1)) s1
    | _ => print (skip_message d) s1
    end.
Proof.
  unfold upsert_detail, bindM. rewrite upsert_listing_detail. simpl.
  destruct (CarDetail.vin d) as [[|c v]|]; reflexivity.
Qed.

(** A property kept by [upsert_listing] is kept by a whole batch. *)
Lemma upsert_listings_preserves (P : state → Prop) :
  (∀ clk o s, P s → P (upsert_listing clk o s).2) →
  ∀ os clks s, P s → P (upsert_listings clks os s).2.
Proof.
  intros Hstep os. induction os as [|o os IH]; intros clks s Hs; [exact Hs|].
  simpl. unfold bindM.
  pose proof (Hstep (clks O) o s Hs) as H1.
  destruct (upsert_listing (clks O) o s) as [[[]|e] s1]; simpl in *.
  - apply IH, H1.
  - exact H1.
Qed.

(** A property kept by the four single-statement methods is kept by
    every call, and by every history of calls. *)
Lemma after_all_preserves (P : state → Prop) :
  (∀ clk o s, P s → P (upsert_listing clk o s).2) →
  (∀ clk1 clk2 d s, P s → P (upsert_detail clk1 clk2 d s).2) →
  (∀ clk site c s, P s → P (start_run clk site c s).2) →
  (∀ clk rid f g e st s, P s → P (complete_run clk rid f g e st s).2) →
  ∀ ws s, P s → P (after_all ws s).
Proof.
  intros H1 H2 H3 H4 ws. unfold after_all.
  induction ws as [|w ws IH]; intros s Hs; [exact Hs|].
  simpl. apply IH. destruct w; simpl.
  - apply H1, Hs.
  - apply upsert_listings_preserves; assumption.
  - apply H2, Hs.
  - apply H3, Hs.
  - apply H4, Hs.
Qed.

Lemma do_update_key now ex old :
  listings.key (listings.do_update now ex old) = listings.key old.
Proof. reflexivity. Qed.

Lemma well_keyed_upsert_listing clk o s :
  well_keyed s → well_keyed (upsert_listing clk o s).2.
Proof.
  intros (Hl & Hd & Hr). rewrite upsert_listing_state.
  destruct o as [l|d]; [exact (conj Hl (conj Hd Hr))|].
  split; [|split; assumption]. simpl. intros k r.
  rewrite insert_listing_lookup.
  destruct (decide _) as [Hk|Hk]; [|apply Hl].
  intros Hrow. injection Hrow as <-.
  destruct (listings_tbl s !! _) as [old|] eqn:Hold; [|exact Hk].
  rewrite do_update_key. rewrite (Hl _ _ Hold). exact Hk.
Qed.

Lemma well_keyed_upsert_detail clk1 clk2 d s :
  well_keyed s → well_keyed (upsert_detail clk1 clk2 d s).2.
Proof.
  intros Hs. rewrite upsert_detail_state. cbv zeta.
  pose proof (well_keyed_upsert_listing clk1 (Detail d) s Hs) as (Hl & Hd & Hr).
  destruct (CarDetail.vin d) as [[|c v]|]; try exact (conj Hl (conj Hd Hr)).
  split; [exact Hl|]. split; [|exact Hr]. simpl. intros v' r.
  rewrite insert_detail_lookup.
  destruct (decide _) as [Hk|Hk]; [|apply Hd].
  intros Hrow. injection Hrow as <-.
  destruct (details_tbl _ !! _) as [old|] eqn:Hold; [|exact Hk].
  simpl. rewrite (Hd _ _ Hold). exact Hk.
Qed.

Lemma well_keyed_start_run clk site c s :
  well_keyed s → well_keyed (start_run clk site c s).2.
Proof.
  intros (Hl & Hd & Hr). split; [exact Hl|]. split; [exact Hd|].
  simpl. intros i r. rewrite lookup_insert.
  destruct (decide _) as [<-|Hi].
  - intros Hrow. injection Hrow as <-. simpl. lia.
  - intros Hrow. destruct (Hr _ _ Hrow). split; [assumption|lia].
Qed.

Lemma well_keyed_complete_run clk rid f g e st s :
  well_keyed s → well_keyed (complete_run clk rid f g e st s).2.
Proof.
  intros (Hl & Hd & Hr). split; [exact Hl|]. split; [exact Hd|].
  simpl. intros i r. rewrite lookup_alter.
  destruct (decide _) as [<-|Hi]; [|apply Hr].
  destruct (runs_tbl s !! rid) as [old|] eqn:Hold; [|discriminate].
  intros Hrow. injection Hrow as <-. simpl. apply Hr, Hold.
Qed.

(** X2.  Every history of storage calls, whether the calls return or
    raise, keeps each row under its own primary key: a listing under
    its [(source_site, id)], a detail under its [vin], a run under its
    [id], with the run sequence ahead of every id in use. *)
Theorem storage_keeps_rows_keyed (ws : list write) (s : state) :
  well_keyed s → well_keyed (after_all ws s).
Proof.
  apply after_all_preserves.
  - apply well_keyed_upsert_listing.
  - apply well_keyed_upsert_detail.
  - apply well_keyed_start_run.
  - apply well_keyed_complete_run.
Qed.

Lemma well_keyed_empty : well_keyed empty_state.
Proof.
  split; [|split]; intros ? ? H; simpl in H; rewrite lookup_empty in H;
    discriminate H.
Qed.

Lemma storage_keeps_rows_keyed_witness :
  well_keyed empty_state ∧ well_keyed (after_all sample_history empty_state).
Proof.
  split; [exact well_keyed_empty|].
  apply storage_keeps_rows_keyed. exact well_keyed_empty.
Defined.

Lemma details_have_listings_upsert_listing clk o s :
  details_have_listings s → details_have_listings (upsert_listing clk o s).2.
Proof.
  intros Hs. rewrite upsert_listing_state. destruct o as [l|d]; [exact Hs|].
  intros v r Hr. simpl in Hr.
  destruct (Hs v r Hr) as (site & i & l & Hsite & Hi & Hl & Hvin).
  simpl. setoid_rewrite insert_listing_lookup.
  destruct (decide (listings.key
              (listing_params (CarDetail.base d) (CarDetail.vin d) (utcnow clk))
            = (site, i))) as [Hk|Hk].
  - eexists site, i, _. rewrite decide_True by exact Hk.
    split; [exact Hsite|]. split; [exact Hi|]. split; [reflexivity|].
    rewrite Hk, Hl. simpl. apply coalesce_keeps, Hvin.
  - exists site, i, l. rewrite decide_False by exact Hk. auto.
Qed.

Lemma details_have_listings_upsert_detail clk1 clk2 d s :
  details_have_listings s → details_have_listings (upsert_detail clk1 clk2 d s).2.
Proof.
  intros Hs. rewrite upsert_detail_state. cbv zeta.
  pose proof (details_have_listings_upsert_listing clk1 (Detail d) s Hs) as H1.
  destruct (CarDetail.vin d) as [[|c v]|] eqn:Hv; try exact H1.
  intros v' r. simpl. rewrite insert_detail_lookup.
  destruct (decide _) as [Hk|Hk]; [|apply H1].
  intros Hrow.
  exists (CarListing.source_site (CarDetail.base d)),
         (CarListing.id (CarDetail.base d)).
  assert (Hlist : ∃ l,
    listings_tbl (upsert_listing clk1 (Detail d) s).2
      !! (CarListing.source_site (CarDetail.base d),
          CarListing.id (CarDetail.base d)) = Some l
    ∧ listings.vin l ≠ None).
  { rewrite upsert_listing_state. simpl. rewrite insert_listing_lookup.
    rewrite decide_True by reflexivity. eexists. split; [reflexivity|].
    rewrite Hv. destruct (listings_tbl s !! _); simpl; discriminate. }
  destruct Hlist as (l & Hl & Hvin). exists l.
  injection Hrow as <-.
  destruct (details_tbl _ !! _) as [old|]; simpl; auto.
Qed.

(** X3.  Every history of storage calls keeps the details relation tied
    to the listings relation: each detail row names, by its
    [source_site] and [id], a listing row that exists and has a non-null
    VIN; and no detail row is keyed by an empty VIN. *)
Theorem storage_keeps_details_tied (ws : list write) (s : state) :
  details_have_listings s ∧ detail_keys_nonempty s →
  details_have_listings (after_all ws s)
  ∧ detail_keys_nonempty (after_all ws s).
Proof.
  apply (after_all_preserves
           (λ s, details_have_listings s ∧ detail_keys_nonempty s)).
  - intros clk o s0 [H1 H2]. split.
    + apply details_have_listings_upsert_listing, H1.
    + rewrite upsert_listing_state. destruct o; exact H2.
  - intros clk1 clk2 d s0 [H1 H2]. split.
    + apply details_have_listings_upsert_detail, H1.
    + rewrite upsert_detail_state. cbv zeta. rewrite upsert_listing_state.
      destruct (CarDetail.vin d) as [[|c v]|]; try exact H2.
      intros v' r. simpl. rewrite insert_detail_lookup.
      destruct (decide _) as [<-|Hk]; [discriminate|apply H2].
  - intros clk site c s0 H. exact H.
  - intros clk rid f g e st s0 H. exact H.
Qed.

Lemma storage_keeps_details_tied_witness :
  details_have_listings (after_all sample_history empty_state)
  ∧ detail_keys_nonempty (after_all sample_history empty_state).
Proof.
  apply storage_keeps_details_tied.
  split; intros v r H; simpl in H; rewrite lookup_empty in H; discriminate H.
Defined.

Lemma nothing_deleted_refl s : nothing_deleted s s.
Proof. repeat split; reflexivity. Qed.

Lemma nothing_deleted_trans s1 s2 s3 :
  nothing_deleted s1 s2 → nothing_deleted s2 s3 → nothing_deleted s1 s3.
Proof.
  intros (A1 & A2 & A3) (B1 & B2 & B3).
  split; [|split]; etransitivity; eassumption.
Qed.

Lemma insert_listing_dom (clk : clock) (ex : listings.row)
    (t : gmap (str * str) listings.row) :
  dom t ⊆ dom (insert_listing clk ex t).
Proof.
  unfold insert_listing. destruct (t !! listings.key ex);
    rewrite dom_insert_L; set_solver.
Qed.

Lemma insert_detail_dom (clk : clock) (ex : details.row)
    (t : gmap str details.row) :
  dom t ⊆ dom (insert_detail clk ex t).
Proof.
  unfold insert_detail. destruct (t !! details.vin ex);
    rewrite dom_insert_L; set_solver.
Qed.

Lemma nothing_deleted_upsert_listing clk o s :
  nothing_deleted s (upsert_listing clk o s).2.
Proof.
  rewrite upsert_listing_state. destruct o; [apply nothing_deleted_refl|].
  split; [apply insert_listing_dom|split; reflexivity].
Qed.

Lemma nothing_deleted_upsert_detail clk1 clk2 d s :
  nothing_deleted s (upsert_detail clk1 clk2 d s).2.
Proof.
  rewrite upsert_detail_state. cbv zeta.
  pose proof (nothing_deleted_upsert_listing clk1 (Detail d) s) as H1.
  destruct (CarDetail.vin d) as [[|c v]|]; try exact H1.
  eapply nothing_deleted_trans; [exact H1|].
  split; [reflexivity|]. split; [apply insert_detail_dom|reflexivity].
Qed.

(** X4.  No storage call deletes anything: after every history of
    calls, each key that was in the listings, details or runs relation is
    still there. *)
Theorem storage_never_deletes (ws : list write) (s : state) :
  nothing_deleted s (after_all ws s).
Proof.
  apply (after_all_preserves (nothing_deleted s)).
  - intros clk o s0 H. eapply nothing_deleted_trans; [exact H|].
    apply nothing_deleted_upsert_listing.
  - intros clk1 clk2 d s0 H. eapply nothing_deleted_trans; [exact H|].
    apply nothing_deleted_upsert_detail.
  - intros clk site c s0 H. eapply nothing_deleted_trans; [exact H|].
    split; [reflexivity|]. split; [reflexivity|]. simpl.
    rewrite dom_insert_L. set_solver.
  - intros clk rid f g e st s0 H. eapply nothing_deleted_trans; [exact H|].
    split; [reflexivity|]. split; [reflexivity|]. simpl.
    rewrite dom_alter_L. reflexivity.
  - apply nothing_deleted_refl.
Qed.

(** ** Persistence: batches *)




(** ** Persistence: merging detail rows *)




Lemma upsert_listing_sets_vin (clk : clock) (d : CarDetail.t) (s : state)
    (x : str) :
  CarDetail.vin d = Some x →
  ∃ l, listings_tbl (upsert_listing clk (Detail d) s).2
         !! key_of (CarDetail.base d) = Some l
       ∧ listings.vin l = Some x.
Proof.
  intros Hv. rewrite upsert_listing_state. simpl.
  rewrite insert_listing_lookup, decide_True by reflexivity.
  eexists. split; [reflexivity|].
  rewrite key_listing_params.
  destruct (listings_tbl s !! key_of (CarDetail.base d)); simpl;
    rewrite Hv; reflexivity.
Qed.




(** ** Persistence: the detail pass *)

(** X8.  Once a detail record with VIN [v] has been upserted, no
    listing row with that VIN is selected by
    [get_listings_without_details], whatever the limit: the detail pass
    does not fetch the same vehicle twice. *)
Theorem detail_upserted_not_selected
    (clk1 clk2 : clock) (d : CarDetail.t) (s : state)
    (c : ascii) (v : str) (limit : nat) :
  CarDetail.vin d = Some (c :: v) →
  ∀ r, r ∈ select_without_details limit (upsert_detail clk1 clk2 d s).2 →
       listings.vin r ≠ Some (c :: v).
Proof.
  intros Hv r Hr.
  destruct (upsert_detail_with_vin clk1 clk2 d s c v Hv)
    as (s' & new & Hrun & Hnew & _).
  rewrite Hrun in Hr. simpl in Hr.
  unfold select_without_details in Hr.
  apply subseteq_take in Hr. rewrite merge_sort_Permutation in Hr.
  apply elem_of_without_details in Hr as [_ (v' & Hv' & Hnone)].
  rewrite Hv'. intros Heq. injection Heq as ->. congruence.
Qed.

Lemma detail_upserted_not_selected_witness :
  Forall (λ r, listings.vin r ≠ Some (lit "1HGCV1F34LA000002"))
    (select_without_details 50
       (upsert_detail (mk_clock 5000 5001) (mk_clock 5002 5003)
          (sample_lot (lit "2") (Some (lit "1HGCV1F34LA000002")))
          four_lots).2).
Proof.
  apply Forall_forall. intros r Hr.
  exact (detail_upserted_not_selected (mk_clock 5000 5001) (mk_clock 5002 5003)
           (sample_lot (lit "2") (Some (lit "1HGCV1F34LA000002"))) four_lots
           "1"%char (lit "HGCV1F34LA000002") 50 eq_refl r Hr).
Defined.

(** X9.  A listing stored with a VIN for which the details relation has
    no row is a candidate of the detail pass: it is among the rows
    [get_listings_without_details] selects as soon as the limit covers
    the relation. *)
Theorem listing_with_vin_selected
    (clk : clock) (d : CarDetail.t) (s : state) (x : str) (limit : nat) :
  CarDetail.vin d = Some x →
  details_tbl s !! x = None →
  (size (listings_tbl (upsert_listing clk (Detail d) s).2) ≤ limit)%nat →
  ∃ r, listings_tbl (upsert_listing clk (Detail d) s).2
         !! key_of (CarDetail.base d) = Some r
       ∧ r ∈ select_without_details limit (upsert_listing clk (Detail d) s).2.
Proof.
  intros Hv Hnone Hlimit.
  destruct (upsert_listing_sets_vin clk d s x Hv) as (r & Hr & Hvin).
  exists r. split; [exact Hr|].
  set (s' := (upsert_listing clk (Detail d) s).2) in *.
  unfold select_without_details.
  set (all := fst <$> filter (λ ld, Is_true (where_no_detail ld)) (left_join s')).
  rewrite take_ge.
  - rewrite merge_sort_Permutation. apply elem_of_without_details.
    split; [eexists; exact Hr|]. exists x. split; [exact Hvin|].
    unfold s'. rewrite upsert_listing_state. exact Hnone.
  - rewrite (Permutation_length (merge_sort_Permutation recent_first all)).
    unfold all, left_join. rewrite length_fmap.
    etransitivity; [apply length_filter|].
    rewrite length_fmap, length_map_to_list. exact Hlimit.
Qed.

Lemma listing_with_vin_selected_witness :
  ∃ r, r ∈ select_without_details 10
             (upsert_listing (mk_clock 1000 1001) (Detail lot_with_image)
                empty_state).2
       ∧ listings.id r = lit "12345678".
Proof.
  destruct (listing_with_vin_selected (mk_clock 1000 1001) lot_with_image
              empty_state sample_vin 10 eq_refl eq_refl)
    as (r & Hr & Hin).
  { vm_compute. lia. }
  exists r. split; [exact Hin|].
  vm_compute in Hr. injection Hr as <-. reflexivity.
Defined.

(** ** Persistence: the runs relation *)

(** X10.  [start_run] returns an id that no run has yet, stores under
    it a row in status "running" with zero counts and no completion
    time, leaves every other run as it was, and advances the sequence,
    so that the next [start_run] returns a different id. *)
Theorem start_run_fresh (clk clk' : clock) (site site' : str)
    (criteria criteria' : SearchCriteria.t) (s : state) :
  well_keyed s →
  ∃ i s' r,
    start_run clk site criteria s = (Ok i, s')
    ∧ runs_tbl s !! i = None
    ∧ runs_tbl s' !! i = Some r
    ∧ runs.status r = lit "running"
    ∧ runs.site r = site ∧ runs.criteria r = criteria
    ∧ runs.started_at r = db_now clk ∧ runs.completed_at r = None
    ∧ runs.listings_found r = 0 ∧ runs.details_fetched r = 0
    ∧ runs.errors r = 0
    ∧ (∀ j, j ≠ i → runs_tbl s' !! j = runs_tbl s !! j)
    ∧ (start_run clk' site' criteria' s').1 = Ok (i + 1).
Proof.
  intros (_ & _ & Hr).
  eexists _, _, _. split; [reflexivity|]. simpl.
  split.
  { destruct (runs_tbl s !! runs_id_seq s) as [r|] eqn:Hrow; [|reflexivity].
    destruct (Hr _ _ Hrow). lia. }
  split; [apply lookup_insert_eq|].
  repeat (split; [reflexivity|]).
  split; [|reflexivity].
  intros j Hj. apply lookup_insert_ne. congruence.
Qed.

Lemma start_run_fresh_witness :
  ∃ i s', start_run (mk_clock 100 101) (lit "copart") honda empty_state
            = (Ok i, s')
          ∧ i = 1
          ∧ (start_run (mk_clock 200 201) (lit "copart") honda s').1 = Ok 2.
Proof.
  destruct (start_run_fresh (mk_clock 100 101) (mk_clock 200 201)
              (lit "copart") (lit "copart") honda honda empty_state
              well_keyed_empty)
    as (i & s' & r & Hrun & _ & _ & _ & _ & _ & _ & _ & _ & _ & _ & _ & Hnext).
  exists i, s'. split; [exact Hrun|].
  assert (Hi : i = 1) by (vm_compute in Hrun; congruence).
  split; [exact Hi|]. rewrite Hnext, Hi. reflexivity.
Defined.

(** X11.  [complete_run] on the id of an existing run overwrites its
    status, the three counts and the completion time and keeps its
    site, criteria and start time; on an id that names no run it
    returns normally and changes nothing.  It checks neither the
    current status nor the new one, and touches no other relation. *)
Theorem complete_run_effect (clk : clock) (rid found fetched errs : Z)
    (status : str) (s : state) :
  ∃ s',
    complete_run clk rid found fetched errs status s = (Ok tt, s')
    ∧ listings_tbl s' = listings_tbl s
    ∧ details_tbl s' = details_tbl s
    ∧ runs_id_seq s' = runs_id_seq s
    ∧ (∀ j, j ≠ rid → runs_tbl s' !! j = runs_tbl s !! j)
    ∧ match runs_tbl s !! rid with
      | None => s' = s
      | Some old =>
          ∃ new, runs_tbl s' !! rid = Some new
                 ∧ runs.status new = status
                 ∧ runs.listings_found new = found
                 ∧ runs.details_fetched new = fetched
                 ∧ runs.errors new = errs
                 ∧ runs.completed_at new = Some (db_now clk)
                 ∧ runs.id new = runs.id old
                 ∧ runs.site new = runs.site old
                 ∧ runs.criteria new = runs.criteria old
                 ∧ runs.started_at new = runs.started_at old
      end.
Proof.
  eexists. split; [reflexivity|]. simpl.
  repeat (split; [reflexivity|]).
  split; [intros j Hj; apply lookup_alter_ne; congruence|].
  destruct (runs_tbl s !! rid) as [old|] eqn:Hold.
  - eexists. rewrite lookup_alter_eq, Hold. simpl. repeat split.
  - rewrite alter_id' by exact Hold. destruct s; reflexivity.
Qed.

(** X12.  Completing a run twice is the same as the second completion
    alone: nothing guards a finalized run, the last write wins on every
    column the statement sets. *)
Theorem complete_run_last_write_wins
    (clk1 clk2 : clock) (rid f1 g1 e1 f2 g2 e2 : Z) (st1 st2 : str) (s : state) :
  (complete_run clk1 rid f1 g1 e1 st1 ;;; complete_run clk2 rid f2 g2 e2 st2) s
  = complete_run clk2 rid f2 g2 e2 st2 s.
Proof.
  unfold bindM, complete_run, modify. simpl. f_equal. unfold set_runs. simpl.
  f_equal. apply map_eq. intros j.
  destruct (decide (rid = j)) as [<-|Hj].
  - rewrite !lookup_alter_eq. destruct (runs_tbl s !! rid); reflexivity.
  - rewrite !lookup_alter_ne by exact Hj. reflexivity.
Qed.

(** ** Record model: construction *)

Lemma criteria_validate_year_ok now_year (v : option Z) :
  SearchCriteria.is_ok (SearchCriteria.validate_year now_year v) = true
  ↔ year_bound_ok now_year v.
Proof.
  unfold year_bound_ok. destruct v as [y|]; simpl.
  - destruct (year_out_of_range now_year y) eqn:Ho; simpl.
    + split; [discriminate|]. intros H.
      specialize (H y eq_refl). apply year_out_of_range_spec in H. congruence.
    + split; [|reflexivity]. intros _ y' Hy. injection Hy as <-.
      apply year_out_of_range_spec, Ho.
  - split; [intros _ y Hy; discriminate Hy|reflexivity].
Qed.

Lemma criteria_validate_positive_ok (v : option Z) :
  SearchCriteria.is_ok (SearchCriteria.validate_positive v) = true
  ↔ non_negative v.
Proof.
  unfold non_negative. destruct v as [n|]; simpl.
  - destruct (n <? 0) eqn:Hn; simpl.
    + split; [discriminate|]. intros H. specialize (H n eq_refl). lia.
    + split; [|reflexivity]. intros _ n' Hn'. injection Hn' as <-. lia.
  - split; [intros _ n Hn; discriminate Hn|reflexivity].
Qed.

(** X13.  Constructing search criteria succeeds exactly when both year
    bounds are absent or within [1900, currentYear + 1] and both numeric
    bounds are absent or non-negative; it then returns the values as
    given, and otherwise raises a validation error.  Nothing relates the
    two year bounds to each other. *)
Theorem criteria_init_spec (now_year : Z) (c : SearchCriteria.t) :
  (SearchCriteria.init now_year c = Ok c
   ↔ year_bound_ok now_year (SearchCriteria.year_min c)
     ∧ year_bound_ok now_year (SearchCriteria.year_max c)
     ∧ non_negative (SearchCriteria.max_miles c)
     ∧ non_negative (SearchCriteria.max_price c))
  ∧ (SearchCriteria.init now_year c = Ok c
     ∨ SearchCriteria.init now_year c = Raise ValidationError).
Proof.
  unfold SearchCriteria.init.
  rewrite <- criteria_validate_year_ok, <- criteria_validate_year_ok,
    <- !criteria_validate_positive_ok.
  destruct (SearchCriteria.is_ok (SearchCriteria.validate_year now_year
              (SearchCriteria.year_min c)));
  destruct (SearchCriteria.is_ok (SearchCriteria.validate_year now_year
              (SearchCriteria.year_max c)));
  destruct (SearchCriteria.is_ok (SearchCriteria.validate_positive
              (SearchCriteria.max_miles c)));
  destruct (SearchCriteria.is_ok (SearchCriteria.validate_positive
              (SearchCriteria.max_price c)));
  simpl; (split; [split; [try discriminate; auto|intros (? & ? & ? & ?);
                          try discriminate; reflexivity]|auto]).
Qed.

Example criteria_inverted_range_accepted :
  SearchCriteria.init 2024 inverted_range = Ok inverted_range.
Proof. reflexivity. Qed.

Lemma vin_char_plain (c : ascii) :
  CarDetail.vin_char c = true → is_space c = false ∧ upper_char c = c.
Proof.
  destruct c as [[] [] [] [] [] [] [] []]; vm_compute; intros H;
    first [discriminate H | split; reflexivity].
Qed.

Lemma drop_while_none (p : ascii → bool) (s : str) :
  Forall (λ c, p c = false) s → drop_while p s = s.
Proof.
  destruct 1 as [|c s Hc _]; [reflexivity|]. apply drop_while_fixed, Hc.
Qed.

Lemma strip_plain (s : str) :
  Forall (λ c, is_space c = false) s → strip s = s.
Proof.
  intros H. unfold strip, lstrip, rstrip.
  rewrite (drop_while_none _ s) by exact H.
  rewrite drop_while_none by (apply Forall_reverse, H).
  apply reverse_involutive.
Qed.

Lemma upper_plain (s : str) :
  Forall (λ c, upper_char c = c) s → upper s = s.
Proof.
  unfold upper. induction 1 as [|c s Hc _ IH]; [reflexivity|].
  simpl. rewrite Hc. f_equal. exact IH.
Qed.

(** A well-formed VIN is already in normal form. *)
Lemma well_formed_vin_normal (u : str) :
  well_formed_vin u → upper (strip u) = u.
Proof.
  intros [_ Hall].
  assert (H : Forall (λ c, is_space c = false ∧ upper_char c = c) u).
  { eapply Forall_impl; [exact Hall|]. intros c Hc.
    apply vin_char_plain, vin_char_alphabet, Hc. }
  apply Forall_and in H as [Hs Hu].
  rewrite strip_plain by exact Hs. apply upper_plain, Hu.
Qed.

(** X14.  [validate_vin] is idempotent: the value it returns, absent or
    normalized, is returned unchanged when validated again, as happens
    each time a detail record is rebuilt from stored or re-extracted
    data. *)
Theorem validate_vin_idempotent (v : option str) :
  CarDetail.validate_vin (CarDetail.validate_vin v) = CarDetail.validate_vin v.
Proof.
  destruct v as [s|]; [|reflexivity].
  rewrite (validate_vin_eq s).
  destruct (decide (well_formed_vin (upper (strip s)))) as [Hwf|Hno];
    [|reflexivity].
  rewrite validate_vin_eq, (well_formed_vin_normal _ Hwf).
  rewrite decide_True by exact Hwf. reflexivity.
Qed.

(** X15.  A year the listing validator lets through stays valid as the
    current year advances: re-validating it in a later year, as when a
    listing is rebuilt from its stored row, returns it unchanged. *)
Theorem validate_year_stable (now_year later_year : Z) (v : option Z) :
  now_year ≤ later_year →
  CarListing.validate_year later_year (CarListing.validate_year now_year v)
  = CarListing.validate_year now_year v.
Proof.
  intros Hle. destruct v as [y|]; [|reflexivity]. simpl.
  destruct (year_out_of_range now_year y) eqn:Ho; [reflexivity|].
  simpl. apply year_out_of_range_spec in Ho.
  destruct (year_out_of_range later_year y) eqn:Ho'; [|reflexivity].
  unfold year_out_of_range, year_in_range in *. lia.
Qed.

Lemma validate_year_stable_witness :
  2024 ≤ 2030
  ∧ CarListing.validate_year 2030 (CarListing.validate_year 2024 (Some 2025))
    = Some 2025.
Proof.
  split; [lia|].
  rewrite (validate_year_stable 2024 2030 (Some 2025)) by lia. reflexivity.
Defined.

(** What construction guarantees of a detail record. *)
Lemma detail_init_ok (now_year utcnow : Z) (kw : CarDetail.kwargs) :
  match CarListing.k_id (CarDetail.k_base kw) with
  | None => CarDetail.init now_year utcnow kw = Raise ValidationError
  | Some i =>
      ∃ d, CarDetail.init now_year utcnow kw = Ok d
           ∧ CarListing.id (CarDetail.base d) = i
           ∧ vin_ok (CarDetail.vin d)
           ∧ year_bound_ok now_year (CarListing.year (CarDetail.base d))
           ∧ CarDetail.images d = default [] (CarDetail.k_images kw)
  end.
Proof.
  unfold CarDetail.init, CarListing.init.
  destruct (CarListing.k_id (CarDetail.k_base kw)) as [i|]; [|reflexivity].
  simpl. eexists. split; [reflexivity|]. simpl.
  split; [reflexivity|]. split; [|split; [|reflexivity]].
  - intros u Hu. destruct (CarDetail.k_vin kw) as [s|]; [|discriminate Hu].
    rewrite validate_vin_eq in Hu.
    destruct (decide (well_formed_vin (upper (strip s)))) as [Hwf|];
      [|discriminate Hu].
    injection Hu as <-. exact Hwf.
  - intros y Hy. destruct (CarListing.k_year (CarDetail.k_base kw)) as [y'|];
      [|discriminate Hy].
    simpl in Hy. destruct (year_out_of_range now_year y') eqn:Ho;
      [discriminate Hy|].
    injection Hy as <-. apply year_out_of_range_spec, Ho.
Qed.

(** X16.  Constructing a detail record fails only for a missing [id];
    every record it returns has a VIN that is absent or well formed
    (seventeen characters of the VIN alphabet), a year that is absent or
    in range, the [id] that was given, and an image list, empty when
    none was given. *)
Theorem detail_init_invariant (now_year utcnow : Z) (kw : CarDetail.kwargs) :
  match CarListing.k_id (CarDetail.k_base kw) with
  | None => CarDetail.init now_year utcnow kw = Raise ValidationError
  | Some i =>
      ∃ d, CarDetail.init now_year utcnow kw = Ok d
           ∧ CarListing.id (CarDetail.base d) = i
           ∧ vin_ok (CarDetail.vin d)
           ∧ year_bound_ok now_year (CarListing.year (CarDetail.base d))
           ∧ CarDetail.images d = default [] (CarDetail.k_images kw)
  end.
Proof. apply detail_init_ok. Qed.

(** ** Extraction: from the model's answer to records *)




(** The canned answer: the item without an id is dropped, the site of
    the third is overwritten, its URL built and its year nulled. *)
Example extract_listings_canned :
  (λ l, (CarListing.id l, CarListing.source_site l, CarListing.url l,
         CarListing.year l))
    <$> default [] (match extract_listings canned 2024 (λ _, 7) small_page with
                    | Ok ls => Some ls
                    | Raise _ => None
                    end)
  = [(lit "12345678", lit "copart",
      Some (lit "https://www.copart.com/lot/12345678"), Some 2020);
     (lit "777", lit "copart",
      Some (lit "https://www.copart.com/lot/777"), None)].
Proof. vm_compute. reflexivity. Qed.



(** ** Persistence: the keys of the details relation *)

Lemma details_unchanged_upsert_listings clks os s :
  details_tbl (upsert_listings clks os s).2 = details_tbl s.
Proof.
  apply (upsert_listings_preserves (λ s', details_tbl s' = details_tbl s));
    [|reflexivity].
  intros clk o s0 H. rewrite upsert_listing_state. destruct o; exact H.
Qed.

Lemma detail_keys_upsert_detail clk1 clk2 d s :
  vin_ok (CarDetail.vin d) → detail_keys_well_formed s →
  detail_keys_well_formed (upsert_detail clk1 clk2 d s).2.
Proof.
  intros Hvin Hs. rewrite upsert_detail_state. cbv zeta.
  rewrite upsert_listing_state.
  destruct (CarDetail.vin d) as [[|c v]|] eqn:Hv; try exact Hs.
  intros v'. simpl. intros Hin.
  assert (Hsub : dom (insert_detail clk2
                        (detail_params d (c :: v) (utcnow clk2)) (details_tbl s))
                 = {[c :: v]} ∪ dom (details_tbl s)).
  { unfold insert_detail. simpl.
    destruct (details_tbl s !! (c :: v)); apply dom_insert_L. }
  rewrite Hsub in Hin. apply elem_of_union in Hin as [Hin|Hin].
  - apply elem_of_singleton in Hin as ->. apply Hvin. reflexivity.
  - apply Hs, Hin.
Qed.

(** X19.  When every detail record upserted has a VIN that is absent or
    well formed, as every constructed record has, every key of the
    details relation stays a well-formed VIN, over any history of
    storage calls. *)
Theorem storage_keeps_detail_keys_well_formed (ws : list write) (s : state) :
  Forall validated ws → detail_keys_well_formed s →
  detail_keys_well_formed (after_all ws s).
Proof.
  unfold after_all. revert s.
  induction ws as [|w ws IH]; intros s Hws Hs; [exact Hs|].
  apply Forall_cons in Hws as [Hw Hws]. simpl. apply IH; [exact Hws|].
  destruct w; simpl in *.
  - rewrite upsert_listing_state. destruct o; exact Hs.
  - unfold detail_keys_well_formed. rewrite details_unchanged_upsert_listings.
    exact Hs.
  - apply detail_keys_upsert_detail; assumption.
  - exact Hs.
  - exact Hs.
Qed.

Lemma storage_keeps_detail_keys_well_formed_witness :
  detail_keys_well_formed (after_all sample_history empty_state)
  ∧ lit "1HGCV1F34LA000001" ∈ dom (details_tbl (after_all sample_history empty_state)).
Proof.
  split.
  - apply storage_keeps_detail_keys_well_formed.
    + unfold sample_history.
      apply Forall_cons; split.
      { intros u Hu. injection Hu as <-.
        refine (bool_decide_eq_true_1 _ _). vm_compute. reflexivity. }
      apply Forall_cons; split; [exact I|].
      apply Forall_cons; split; [intros u Hu; discriminate Hu|].
      apply Forall_cons; split; [exact I|].
      apply Forall_cons; split; [exact I|]. constructor.
    + intros v Hv. simpl in Hv. rewrite dom_empty_L in Hv.
      apply elem_of_empty in Hv. contradiction.
  - apply elem_of_dom. vm_compute. eexists. reflexivity.
Defined.

(** ** The [search] command: the shape of every run *)

(** A batch of base-class listings never gets past the first element,
    so the page loop never adds to the listing counter. *)
Lemma page_body_in_page_loop (E : Main.env) (max_pages page rid : Z)
    (s : Main.state) :
  in_page_loop rid s → in_page_loop rid (Main.page_body E max_pages page s).2.
Proof.
  intros (Htr & Hrid & Htot). unfold in_page_loop.
  unfold Main.page_body, Main.bindP, Main.lift, Main.ret, Main.read,
    Main.set_vars, Main.storage_call.
  destruct (Main.get_page_html E page) as [html|e]; [|done].
  destruct (Main.extract_listings E page) as [[|l ls]|e]; [done| |done].
  simpl. repeat (case_match; simplify_eq/=); done.
Qed.

Lemma page_loop_in_page_loop (fuel : nat) (E : Main.env) (max_pages page rid : Z)
    (s : Main.state) :
  in_page_loop rid s →
  in_page_loop rid (Main.page_loop fuel E max_pages page s).2.
Proof.
  revert page s. induction fuel as [|fuel IH]; intros page s Hs; [exact Hs|].
  simpl. destruct (page <=? max_pages); [|exact Hs].
  unfold Main.bindP.
  pose proof (page_body_in_page_loop E max_pages page rid s Hs) as Hb.
  destruct (Main.page_body E max_pages page s) as [[[|page']|e] s1]; simpl in *.
  - exact Hb.
  - apply IH, Hb.
  - exact Hb.
Qed.

Lemma in_page_loop_before_completion rid s :
  in_page_loop rid s → before_completion s.
Proof.
  intros (Htr & Hrid & Htot). split; [right; exists rid; auto|right; exact Htot].
Qed.

(** From inside the page loop to the end of the [try] block. *)
Lemma loop_and_completion_shape (E : Main.env) (max_pages rid : Z)
    (s0 : Main.state) :
  in_page_loop rid s0 →
  ∀ r s1,
    Main.bindP (Main.page_loop (Z.to_nat max_pages) E max_pages 1) (λ _,
      Main.bindP (Main.read Main.total_listings) (λ total,
      Main.bindP (Main.read Main.errors) (λ errs,
        Main.complete_run E (Main.fault_complete_run E) rid total 0 errs
          (lit "completed")))) s0 = (r, s1) →
  before_completion s1
  ∨ (r = Ok tt ∧ run_events (Main.trace s1) ∧ Main.trace s1 ≠ []).
Proof.
  intros Hs0 r s1.
  pose proof (page_loop_in_page_loop (Z.to_nat max_pages) E max_pages 1 rid s0
                Hs0) as Hloop.
  unfold Main.bindP at 1.
  destruct (Main.page_loop (Z.to_nat max_pages) E max_pages 1 s0) as [[[]|e] s2];
    simpl in Hloop.
  - pose proof (in_page_loop_before_completion _ _ Hloop) as Hbefore.
    destruct Hloop as (Htr & Hrid & Htot).
    unfold Main.bindP, Main.read, Main.complete_run, Main.storage_call,
      Main.emit, Main.bindP.
    rewrite Htot.
    destruct (Main.errors (Main.vars s2)) as [errs|];
      [|intros H; injection H as <- <-; left; exact Hbefore].
    destruct (Main.fault_complete_run E) as [e|];
      [intros H; injection H as <- <-; left; exact Hbefore|].
    simpl. intros H. injection H as <- <-. right. simpl. rewrite Htr.
    split; [reflexivity|]. split; [|discriminate].
    right. right. exists rid, errs, (lit "completed").
    split; [reflexivity|]. unfold terminal_statuses. set_solver.
  - intros H. injection H as <- <-. left.
    apply (in_page_loop_before_completion rid), Hloop.
Qed.

(** The [try] block ends either before any completion, or normally
    right after the one completion it has written. *)
Lemma try_block_shape (E : Main.env) (site : str) (criteria : SearchCriteria.t)
    (max_pages : Z) (st : state) (r : result unit) (s1 : Main.state) :
  Main.try_block E site criteria max_pages (Main.initial st) = (r, s1) →
  before_completion s1
  ∨ (r = Ok tt ∧ run_events (Main.trace s1) ∧ Main.trace s1 ≠ []).
Proof.
  assert (Hinit : before_completion (Main.initial st)).
  { split; left; [split|]; reflexivity. }
  unfold Main.try_block.
  unfold Main.bindP at 1. unfold Main.lift at 1.
  destruct (Main.connect E) as [[]|e];
    [|intros H; injection H as <- <-; left; exact Hinit].
  unfold Main.bindP at 1. unfold Main.storage_call at 1.
  destruct (Main.fault_start_run E) as [e|];
    [intros H; injection H as <- <-; left; exact Hinit|].
  unfold start_run at 1. cbv beta iota zeta.
  unfold Main.bindP at 1. unfold Main.set_vars at 1.
  unfold Main.bindP at 1. unfold Main.emit at 1.
  set (rid := runs_id_seq st).
  set (s_started := {| Main.vars := _; Main.store := _; Main.trace := _ |}).
  assert (Hstarted : before_completion s_started).
  { split; [right; exists rid; split; reflexivity|left; reflexivity]. }
  unfold Main.bindP at 1. unfold Main.lift at 1.
  destruct (Main.browser_start E) as [[]|e];
    [|intros H; injection H as <- <-; left; exact Hstarted].
  assert (Hfailed : ∀ r s1,
    Main.complete_run E (Main.fault_complete_run E) rid 0 0 1 (lit "failed")
      s_started = (r, s1) →
    before_completion s1
    ∨ (r = Ok tt ∧ run_events (Main.trace s1) ∧ Main.trace s1 ≠ [])).
  { intros r0 s0. unfold Main.complete_run, Main.bindP, Main.storage_call,
      Main.emit.
    destruct (Main.fault_complete_run E) as [e|];
      [intros H; injection H as <- <-; left; exact Hstarted|].
    simpl. intros H. injection H as <- <-. right. simpl.
    split; [reflexivity|]. split; [|discriminate].
    right. right. exists rid, 1, (lit "failed").
    split; [reflexivity|]. unfold terminal_statuses. set_solver. }
  unfold Main.bindP at 1. unfold Main.lift at 1.
  destruct (Main.login E) as [[|]|e];
    [|apply Hfailed|intros H; injection H as <- <-; left; exact Hstarted].
  simpl negb. cbv iota.
  unfold Main.bindP at 1. unfold Main.lift at 1.
  destruct (Main.save_cookies E) as [[]|e];
    [|intros H; injection H as <- <-; left; exact Hstarted].
  unfold Main.bindP at 1. unfold Main.lift at 1.
  destruct (Main.search E) as [[|]|e];
    [|apply Hfailed|intros H; injection H as <- <-; left; exact Hstarted].
  simpl negb. cbv iota.
  unfold Main.bindP at 1. unfold Main.set_vars at 1.
  apply loop_and_completion_shape. repeat split.
Qed.

Lemma handlers_shape (E : Main.env) (e : exn) (s1 : Main.state) :
  before_completion s1 →
  run_events (Main.trace (Main.on_interrupt E s1).2)
  ∧ run_events (Main.trace (Main.on_exception E e s1).2).
Proof.
  intros [Hev Htot].
  assert (Hinterrupted : lit "interrupted" ∈ terminal_statuses)
    by (unfold terminal_statuses; repeat constructor).
  assert (Hfailed : lit "failed" ∈ terminal_statuses)
    by (unfold terminal_statuses; repeat constructor).
  assert (Hsame : run_events (Main.trace s1)).
  { destruct Hev as [[-> _]|(rid & -> & _)]; [left; reflexivity|].
    right. left. exists rid. reflexivity. }
  unfold Main.on_interrupt, Main.on_exception, Main.bindP, Main.read,
    Main.complete_run, Main.storage_call, Main.emit, Main.lift, Main.bindP.
  destruct Hev as [[Htr Hrid]|(rid & Htr & Hrid)]; rewrite Hrid;
    [split; exact Hsame|].
  destruct Htot as [Htot|Htot]; rewrite Htot; [split; exact Hsame|].
  destruct (Main.errors (Main.vars s1)) as [errs|]; [|split; exact Hsame].
  destruct (Main.fault_complete_run_handler E) as [e'|]; [split; exact Hsame|].
  simpl. rewrite Htr. split; right; right.
  - exists rid, errs, (lit "interrupted"). split; [reflexivity|assumption].
  - exists rid, (errs + 1), (lit "failed"). split; [reflexivity|assumption].
Qed.

Lemma finally_block_trace (E : Main.env) (s : Main.state) :
  Main.trace (Main.finally_block E s).2 = Main.trace s ++ releases E.
Proof.
  unfold Main.finally_block, Main.bindP, Main.lift, Main.emit, releases.
  destruct (Main.browser_close E) as [[]|e]; simpl;
    [|rewrite app_nil_r; reflexivity].
  destruct (Main.storage_close E) as [[]|e]; simpl;
    [rewrite <- app_assoc|]; reflexivity.
Qed.

(** The events of the [try] statement: those of a run, then the releases. *)
Lemma try_statement_trace (E : Main.env) (site : str)
    (criteria : SearchCriteria.t) (max_pages : Z) (st : state) :
  ∃ tr,
    Main.trace (Main.try_statement E
                  (Main.try_block E site criteria max_pages)
                  (Main.initial st)).2 = tr ++ releases E
    ∧ run_events tr.
Proof.
  unfold Main.try_statement.
  destruct (Main.try_block E site criteria max_pages (Main.initial st))
    as [r s1] eqn:Hbody.
  apply try_block_shape in Hbody.
  assert (Hmid : ∃ r' s2,
    match r with
    | Ok _ => (Ok tt, s1)
    | Raise e =>
        if decide (e = KeyboardInterrupt) then Main.on_interrupt E s1
        else if is_Exception e then Main.on_exception E e s1
        else (Raise e, s1)
    end = (r', s2) ∧ run_events (Main.trace s2)).
  { assert (Hbefore : before_completion s1 → run_events (Main.trace s1)).
    { intros [[[-> _]|(rid & -> & _)] _]; [left; reflexivity|].
      right. left. exists rid. reflexivity. }
    destruct r as [[]|e].
    - eexists _, _. split; [reflexivity|].
      destruct Hbody as [Hb|(_ & Hev & _)]; [apply Hbefore, Hb|exact Hev].
    - destruct Hbody as [Hb|(Hr & _)]; [|discriminate Hr].
      destruct (handlers_shape E e s1 Hb) as [Hi He].
      destruct (decide (e = KeyboardInterrupt)).
      + destruct (Main.on_interrupt E s1) as [r' s2]. eexists _, _.
        split; [reflexivity|exact Hi].
      + destruct (is_Exception e).
        * destruct (Main.on_exception E e s1) as [r' s2]. eexists _, _.
          split; [reflexivity|exact He].
        * eexists _, _. split; [reflexivity|apply Hbefore, Hb]. }
  destruct Hmid as (r' & s2 & -> & Hev).
  exists (Main.trace s2). split; [|exact Hev].
  pose proof (finally_block_trace E s2) as Hfin.
  destruct (Main.finally_block E s2) as [[[]|e] s3]; exact Hfin.
Qed.


Lemma run_events_no_release (tr : list Main.event) :
  run_events tr →
  Forall (λ e, e ≠ Main.BrowserClosed ∧ e ≠ Main.StorageClosed) tr.
Proof.
  intros [->|[[rid ->]|(rid & errs & status & -> & _)]];
    repeat (constructor; [split; discriminate|]); constructor.
Qed.

Lemma try_statement_close_raises (E : Main.env) (body : Main.P unit)
    (s : Main.state) (e : exn) :
  Main.browser_close E = Raise e → (Main.try_statement E body s).1 = Raise e.
Proof.
  intros Hclose. unfold Main.try_statement.
  destruct (body s) as [r s1].
  destruct (match r with
            | Ok _ => (Ok tt, s1)
            | Raise e0 =>
                if decide (e0 = KeyboardInterrupt) then Main.on_interrupt E s1
                else if is_Exception e0 then Main.on_exception E e0 s1
                else (Raise e0, s1)
            end) as [r' s2].
  unfold Main.finally_block, Main.bindP, Main.lift. rewrite Hclose. reflexivity.
Qed.

(** X21.  If the settings are missing or the criteria invalid,
    [_search] raises before its [try] statement: no run is started,
    nothing is stored and nothing is closed.  Otherwise the [finally]
    block runs on every path: the events end with the browser and then
    the pool being closed, the only release events of the run; but when
    closing the browser raises, that exception ends the command and the
    pool is not closed. *)
Theorem search_releases (E : Main.env) (site : str)
    (criteria : SearchCriteria.t) (max_pages : Z) (st : state) :
  let run := Main._search E site criteria max_pages (Main.initial st) in
  match Main.settings E, SearchCriteria.init (Main.now_year E) criteria with
  | Raise e, _ => run = (Raise e, Main.initial st)
  | Ok _, Raise e => run = (Raise e, Main.initial st)
  | Ok _, Ok _ =>
      ∃ tr,
        Main.trace run.2 = tr ++ releases E
        ∧ Forall (λ e, e ≠ Main.BrowserClosed ∧ e ≠ Main.StorageClosed) tr
        ∧ match Main.browser_close E, Main.storage_close E with
          | Ok _, Ok _ => releases E = [Main.BrowserClosed; Main.StorageClosed]
          | Ok _, Raise e => releases E = [Main.BrowserClosed] ∧ run.1 = Raise e
          | Raise e, _ => releases E = [] ∧ run.1 = Raise e
          end
  end.
Proof.
  cbv zeta. unfold Main._search, Main.bindP, Main.lift.
  destruct (Main.settings E) as [[]|e]; [|reflexivity].
  destruct (SearchCriteria.init (Main.now_year E) criteria) as [c|e];
    [|reflexivity].
  destruct (try_statement_trace E site c max_pages st) as (tr & Htr & Hev).
  exists tr. split; [exact Htr|]. split; [apply run_events_no_release, Hev|].
  unfold releases.
  destruct (Main.browser_close E) as [[]|e] eqn:Hb.
  - destruct (Main.storage_close E) as [[]|e] eqn:Hs; [reflexivity|].
    split; [reflexivity|].
    unfold Main.try_statement.
    destruct (Main.try_block E site c max_pages (Main.initial st)) as [r s1].
    destruct (match r with
              | Ok _ => (Ok tt, s1)
              | Raise e0 =>
                  if decide (e0 = KeyboardInterrupt) then Main.on_interrupt E s1
                  else if is_Exception e0 then Main.on_exception E e0 s1
                  else (Raise e0, s1)
              end) as [r' s2].
    unfold Main.finally_block, Main.bindP, Main.lift, Main.emit.
    rewrite Hb, Hs. reflexivity.
  - split; [reflexivity|]. apply try_statement_close_raises, Hb.
Qed.

(** ** The [fetch-details] command *)

Lemma upsert_detail_returns (clk1 clk2 : clock) (d : CarDetail.t) (s : state) :
  (upsert_detail clk1 clk2 d s).1 = Ok tt.
Proof.
  unfold upsert_detail, bindM. rewrite upsert_listing_detail.
  destruct (CarDetail.vin d) as [[|c v]|]; reflexivity.
Qed.

Lemma extract_detail_vin_ok (O : oracle) (now_year utcnow : Z)
    (html listing_id listing_url : str) (d : CarDetail.t) :
  extract_detail O now_year utcnow html listing_id listing_url = Ok (Some d) →
  vin_ok (CarDetail.vin d).
Proof.
  unfold extract_detail. cbv zeta.
  destruct (ask_detail O _ listing_id) as [text|e];
    [|destruct (is_Exception e); discriminate].
  destruct (loads_object O _) as [data|e];
    [|destruct (is_Exception e); discriminate].
  pose proof (detail_init_ok now_year utcnow
                (ensure_required listing_id listing_url data)) as H.
  simpl in H. destruct H as (d' & -> & _ & Hvin & _).
  intros Heq. injection Heq as <-. exact Hvin.
Qed.

(** What one iteration does to the store: nothing, or one detail upsert
    of a record with a valid VIN field. *)
Lemma fetch_item_store (E : Main.fetch_env) (n : nat) (l : CarListing.t)
    (st : state) :
  (Main.fetch_item E n l st).2 = st
  ∨ ∃ clk1 clk2 d,
      vin_ok (CarDetail.vin d)
      ∧ Main.fetch_item E n l st = (Ok Main.Fetched, (upsert_detail clk1 clk2 d st).2).
Proof.
  unfold Main.fetch_item.
  destruct (negb (truthy (CarListing.url l))); [left; reflexivity|]. cbv zeta.
  destruct (Main.f_go_to_listing E _) as [html|e]; [|left; reflexivity].
  destruct (extract_detail _ _ _ _ _ _) as [[d|]|e] eqn:Hext;
    [|left; reflexivity|left; reflexivity].
  destruct (Main.f_fault_upsert E n); [left; reflexivity|].
  right. exists (Main.f_clk_upsert E n).1, (Main.f_clk_upsert E n).2, d.
  split; [eapply extract_detail_vin_ok, Hext|].
  pose proof (upsert_detail_returns (Main.f_clk_upsert E n).1
                (Main.f_clk_upsert E n).2 d st) as Hok.
  destruct (upsert_detail _ _ d st) as [r st']. simpl in Hok. rewrite Hok.
  reflexivity.
Qed.

Lemma upsert_detail_size (clk1 clk2 : clock) (d : CarDetail.t) (s : state) :
  (size (details_tbl (upsert_detail clk1 clk2 d s).2)
   ≤ S (size (details_tbl s)))%nat
  ∧ runs_tbl (upsert_detail clk1 clk2 d s).2 = runs_tbl s.
Proof.
  rewrite upsert_detail_state. cbv zeta. rewrite upsert_listing_state.
  destruct (CarDetail.vin d) as [[|c v]|]; simpl; try (split; [lia|reflexivity]).
  split; [|reflexivity]. unfold insert_detail. simpl.
  destruct (details_tbl s !! (c :: v)) as [old|] eqn:Hold.
  - rewrite map_size_insert_Some by eauto. lia.
  - rewrite map_size_insert_None by exact Hold. lia.
Qed.

Ltac close_accounting H :=
  destruct H as (? & ? & ? & ? & ? & ?);
  split; [lia|]; split; [lia|]; split; [lia|]; split; [lia|];
  split; assumption.

(** X22.  When the loop of the detail pass runs to its end, every
    candidate is accounted for exactly once: the numbers fetched, failed
    and skipped for lack of a URL add up to the number of candidates.
    A candidate counts as fetched even when its record had no VIN and
    no detail row was written, so the details relation grows by at most
    the number fetched; the runs relation is untouched and nothing is
    deleted. *)
Theorem fetch_loop_accounting (E : Main.fetch_env) (n : nat)
    (listings : list CarListing.t) (f0 e0 f e : Z) (st st' : state) :
  Main.fetch_loop E n listings f0 e0 st = (Ok (f, e), st') →
  f0 ≤ f ∧ e0 ≤ e
  ∧ (f - f0) + (e - e0) + len (filter lacks_url listings) = len listings
  ∧ Z.of_nat (size (details_tbl st'))
    ≤ Z.of_nat (size (details_tbl st)) + (f - f0)
  ∧ runs_tbl st' = runs_tbl st
  ∧ nothing_deleted st st'.
Proof.
  revert n f0 e0 st.
  induction listings as [|l ls IH]; intros n f0 e0 st Hrun.
  - simpl in Hrun. injection Hrun as <- <- <-. unfold len. simpl.
    split; [lia|]. split; [lia|]. split; [lia|]. split; [lia|].
    split; [reflexivity|apply nothing_deleted_refl].
  - simpl in Hrun.
    assert (Hlen : ∀ b : bool,
      lacks_url l ↔ b = true →
      len (filter lacks_url (l :: ls))
      = (if b then 1 else 0) + len (filter lacks_url ls)
      ∧ len (l :: ls) = 1 + len ls).
    { intros b Hb. unfold len. split; [|simpl; lia].
      destruct b.
      - rewrite filter_cons_True by (apply Hb; reflexivity). simpl. lia.
      - rewrite filter_cons_False; [lia|]. intros H. apply Hb in H.
        discriminate H. }
    unfold Main.fetch_item in Hrun.
    destruct (truthy (CarListing.url l)) eqn:Hurl; simpl in Hrun.
    + destruct (Hlen false) as [Hl1 Hl2];
        [unfold lacks_url; rewrite Hurl; split; discriminate|].
      rewrite Hl1, Hl2. clear Hlen Hl1 Hl2.
      destruct (Main.f_go_to_listing E _) as [html|ex].
      * destruct (extract_detail _ _ _ _ _ _) as [[d|]|ex].
        -- destruct (Main.f_fault_upsert E n) as [ex|].
           ++ destruct (is_Exception ex); [|discriminate Hrun].
              apply IH in Hrun. close_accounting Hrun.
           ++ pose proof (upsert_detail_returns (Main.f_clk_upsert E n).1
                            (Main.f_clk_upsert E n).2 d st) as Hok.
              pose proof (upsert_detail_size (Main.f_clk_upsert E n).1
                            (Main.f_clk_upsert E n).2 d st) as [Hsize Hruns].
              pose proof (nothing_deleted_upsert_detail (Main.f_clk_upsert E n).1
                            (Main.f_clk_upsert E n).2 d st) as Hkeep.
              destruct (upsert_detail _ _ d st) as [r st1]. simpl in *.
              subst r. apply IH in Hrun.
              destruct Hrun as (? & ? & ? & ? & Hr & Hk).
              split; [lia|]. split; [lia|]. split; [lia|]. split; [lia|].
              split; [congruence|].
              eapply nothing_deleted_trans; eassumption.
        -- apply IH in Hrun. close_accounting Hrun.
        -- destruct (is_Exception ex); [|discriminate Hrun].
           apply IH in Hrun. close_accounting Hrun.
      * destruct (is_Exception ex); [|discriminate Hrun].
        apply IH in Hrun. close_accounting Hrun.
    + destruct (Hlen true) as [Hl1 Hl2];
        [unfold lacks_url; rewrite Hurl; split; reflexivity|].
      rewrite Hl1, Hl2. apply IH in Hrun. close_accounting Hrun.
Qed.

Lemma fetch_loop_accounting_witness :
  ∃ st',
    Main.fetch_loop calm_fetch O three_candidates 0 0 four_lots
      = (Ok (1, 1), st')
    ∧ len (filter lacks_url three_candidates) = 1
    ∧ len three_candidates = 3
    ∧ runs_tbl st' = runs_tbl four_lots.
Proof.
  destruct (Main.fetch_loop calm_fetch O three_candidates 0 0 four_lots)
    as [r st'] eqn:Hrun.
  assert (Hr : r = Ok (1, 1)).
  { apply (f_equal fst) in Hrun. simpl in Hrun. rewrite <- Hrun.
    vm_compute. reflexivity. }
  subst r. exists st'. split; [reflexivity|].
  destruct (fetch_loop_accounting calm_fetch O three_candidates 0 0 1 1
              four_lots st' Hrun) as (_ & _ & _ & _ & Hruns & _).
  split; [vm_compute; reflexivity|]. split; [reflexivity|exact Hruns].
Defined.

Lemma fetch_loop_preserves (P : state → Prop) (E : Main.fetch_env) :
  (∀ clk1 clk2 d s, vin_ok (CarDetail.vin d) → P s →
                    P (upsert_detail clk1 clk2 d s).2) →
  ∀ listings n f e st, P st → P (Main.fetch_loop E n listings f e st).2.
Proof.
  intros Hstep listings.
  induction listings as [|l ls IH]; intros n f e st Hst; [exact Hst|].
  simpl.
  assert (Hitem : P (Main.fetch_item E n l st).2).
  { destruct (fetch_item_store E n l st) as [->|(clk1 & clk2 & d & Hvin & ->)];
      [exact Hst|].
    apply Hstep; assumption. }
  destruct (Main.fetch_item E n l st) as [[[| |]|ex] st1]; simpl in Hitem;
    try (apply IH; exact Hitem).
  destruct (is_Exception ex); [apply IH|]; exact Hitem.
Qed.

Lemma fetch_details_preserves (P : state → Prop) (E : Main.fetch_env)
    (limit : Z) (st : state) :
  (∀ clk1 clk2 d s, vin_ok (CarDetail.vin d) → P s →
                    P (upsert_detail clk1 clk2 d s).2) →
  P st → P (Main.f_store (Main._fetch_details E limit st).2).
Proof.
  intros Hstep Hst.
  assert (Htry : P (Main.f_store (Main.fetch_try_block E limit st).2)).
  { unfold Main.fetch_try_block.
    destruct (Main.f_connect E); [|exact Hst].
    destruct (Main.f_fault_query E); [exact Hst|].
    assert (Hq : (get_listings_without_details (Main.f_now_year E)
                    (Main.f_utcnow E) limit st).2 = st).
    { unfold get_listings_without_details.
      destruct (limit <? 0); reflexivity. }
    destruct (get_listings_without_details _ _ limit st) as [[[|l ls]|ex] st1];
      simpl in Hq; subst st1; try exact Hst.
    destruct (Main.f_browser_start E); [|exact Hst].
    destruct (Main.f_load_cookies E) as [[|]|]; try exact Hst.
    - pose proof (fetch_loop_preserves P E Hstep (l :: ls) O 0 0 st Hst) as Hl.
      destruct (Main.fetch_loop E O (l :: ls) 0 0 st) as [[[f e]|ex] st2];
        exact Hl.
    - destruct (Main.f_login E) as [[|]|]; try exact Hst.
      destruct (Main.f_save_cookies E); [|exact Hst].
      pose proof (fetch_loop_preserves P E Hstep (l :: ls) O 0 0 st Hst) as Hl.
      destruct (Main.fetch_loop E O (l :: ls) 0 0 st) as [[[f e]|ex] st2];
        exact Hl. }
  unfold Main._fetch_details.
  destruct (Main.f_settings E); [|exact Hst].
  destruct (Main.fetch_try_block E limit st) as [r s1]. simpl in Htry.
  destruct (Main.f_browser_close E); [|exact Htry].
  destruct (Main.f_storage_close E); exact Htry.
Qed.

(** X23.  On every path of the [fetch-details] command, whatever the
    browser, the model and the store's connection do, the runs relation
    is left as it was (the detail pass records no run), nothing is
    deleted, and if every key of the details relation was a well-formed
    VIN before, every key is one afterwards. *)
Theorem fetch_details_store (E : Main.fetch_env) (limit : Z) (st : state) :
  runs_tbl (Main.f_store (Main._fetch_details E limit st).2) = runs_tbl st
  ∧ nothing_deleted st (Main.f_store (Main._fetch_details E limit st).2)
  ∧ (detail_keys_well_formed st →
     detail_keys_well_formed (Main.f_store (Main._fetch_details E limit st).2)).
Proof.
  split; [|split].
  - apply (fetch_details_preserves (λ s, runs_tbl s = runs_tbl st));
      [|reflexivity].
    intros clk1 clk2 d s _ Hs.
    rewrite (proj2 (upsert_detail_size clk1 clk2 d s)). exact Hs.
  - apply (fetch_details_preserves (nothing_deleted st));
      [|apply nothing_deleted_refl].
    intros clk1 clk2 d s _ Hs. eapply nothing_deleted_trans; [exact Hs|].
    apply nothing_deleted_upsert_detail.
  - apply (fetch_details_preserves detail_keys_well_formed).
    intros clk1 clk2 d s Hvin Hs. apply detail_keys_upsert_detail; assumption.
Qed.

(** The detail pass over a store holding one listing with a VIN, a URL
    and no detail row: the listing is the one candidate, its page gives
    the canned detail, and one detail row is added. *)
Lemma fetch_details_store_witness :
  detail_keys_well_formed
    (Main.f_store
       (Main._fetch_details calm_fetch 50 (one_listing (Some 2020) None)).2)
  ∧ (Main._fetch_details calm_fetch 50 (one_listing (Some 2020) None)).1 = Ok tt
  ∧ Main.f_summary
      (Main._fetch_details calm_fetch 50 (one_listing (Some 2020) None)).2
    = Some (1, 1, 0)
  ∧ Main.f_trace
      (Main._fetch_details calm_fetch 50 (one_listing (Some 2020) None)).2
    = [Main.BrowserClosed; Main.StorageClosed]
  ∧ size (details_tbl
            (Main.f_store
               (Main._fetch_details calm_fetch 50
                  (one_listing (Some 2020) None)).2)) = 1%nat.
Proof.
  split.
  - apply (fetch_details_store calm_fetch 50 (one_listing (Some 2020) None)).
    intros v Hv.
    assert (Hempty : details_tbl (one_listing (Some 2020) None) = ∅)
      by reflexivity.
    rewrite Hempty, dom_empty_L in Hv. apply elem_of_empty in Hv.
    contradiction.
  - vm_compute. repeat split.
Defined.

(** ** Extraction: cleaning is stable *)

Lemma split_lines_nl_free (s : str) : Forall (λ l, nl ∉ l) (split_lines s).
Proof.
  induction s as [|c s IH]; simpl.
  - constructor; [|constructor]. intros H. inversion H.
  - destruct (decide (c = nl)) as [->|Hc].
    + constructor; [|exact IH]. intros H. inversion H.
    + destruct (split_lines s) as [|h rest]; [constructor; [|constructor]|].
      * intros H. apply list_elem_of_singleton in H. congruence.
      * apply Forall_cons in IH as [Hh Hrest]. constructor; [|exact Hrest].
        intros H. apply elem_of_cons in H as [H|H]; [congruence|].
        exact (Hh H).
Qed.

(** Splitting what was joined gives the lines back. *)
Lemma split_join_lines (ls : list str) :
  ls ≠ [] → Forall (λ l, nl ∉ l) ls → split_lines (join_lines ls) = ls.
Proof.
  induction ls as [|l ls IH]; [contradiction|]. intros _ Hall.
  apply Forall_cons in Hall as [Hl Hls].
  destruct ls as [|l' ls].
  - simpl. apply split_lines_one, Hl.
  - change (join_lines (l :: l' :: ls)) with (l ++ nl :: join_lines (l' :: ls)).
    rewrite split_lines_app, split_lines_one by exact Hl.
    rewrite IH; [reflexivity|discriminate|exact Hls].
Qed.

(** The cleaned text does not begin with a fence. *)
Lemma clean_not_fenced (r : str) :
  startswith fence (_clean_json_response r) = false.
Proof.
  unfold _clean_json_response. cbv zeta.
  destruct (startswith fence (strip r)) eqn:Hf.
  - set (lines := filter (λ l, ¬ Is_true (is_fence_line l))
                    (split_lines (strip r))).
    destruct lines as [|l ls] eqn:Hlines; [reflexivity|].
    apply no_fence_lines_not_fenced. unfold no_fence_lines.
    assert (Hnl : Forall (λ l, nl ∉ l) (l :: ls)).
    { rewrite <- Hlines. unfold lines. apply Forall_forall. intros x Hx.
      apply list_elem_of_filter in Hx as [_ Hx].
      pose proof (split_lines_nl_free (strip r)) as Hall.
      rewrite Forall_forall in Hall. apply Hall, Hx. }
    rewrite split_join_lines; [|discriminate|exact Hnl].
    rewrite <- Hlines. unfold lines. apply Forall_forall. intros x Hx.
    apply list_elem_of_filter in Hx as [Hx _]. exact Hx.
  - rewrite strip_idem. exact Hf.
Qed.

Lemma clean_is_stripped (r : str) :
  strip (_clean_json_response r) = _clean_json_response r.
Proof.
  unfold _clean_json_response. cbv zeta. apply strip_idem.
Qed.

(** X24.  Cleaning a response is idempotent, for every response: the
    cleaned text has no surrounding whitespace and does not begin with
    a fence, so cleaning it again returns it unchanged. *)
Theorem clean_json_response_idempotent (r : str) :
  _clean_json_response (_clean_json_response r) = _clean_json_response r
  ∧ strip (_clean_json_response r) = _clean_json_response r
  ∧ startswith fence (_clean_json_response r) = false.
Proof.
  split; [|split; [apply clean_is_stripped|apply clean_not_fenced]].
  unfold _clean_json_response at 1. cbv zeta.
  rewrite clean_is_stripped, clean_not_fenced. apply clean_is_stripped.
Qed.

(** ** Settings *)

Lemma read_vars_spec (environ : gmap str str) (vars : list str)
    (settings : gmap str (option str)) (missing : list str) :
  Settings.read_vars environ vars settings missing
  = (foldl (λ acc var, <[lower var := environ !! var]> acc) settings vars,
     missing ++ filter (unset environ) vars).
Proof.
  revert settings missing. induction vars as [|var vars IH];
    intros settings missing; simpl.
  - rewrite app_nil_r. reflexivity.
  - rewrite IH. f_equal. unfold unset at 2.
    destruct (truthy (environ !! var)) eqn:Hv; simpl.
    + rewrite filter_cons_False by (unfold unset; congruence). reflexivity.
    + rewrite filter_cons_True by exact Hv. rewrite <- app_assoc. reflexivity.
Qed.

(** X25.  [get_settings] fails exactly when one of the four required
    variables is unset or empty, and then names all the missing ones in
    the order of the list; otherwise it returns each variable's value
    under the lower-cased name, and nothing else. *)
Theorem get_settings_spec (environ : gmap str str) :
  match Settings.get_settings environ with
  | inl missing =>
      missing = filter (unset environ) Settings.required_vars ∧ missing ≠ []
  | inr settings =>
      Forall (λ var, ∃ value, value ≠ [] ∧ environ !! var = Some value
                              ∧ settings !! lower var = Some (Some value))
        Settings.required_vars
      ∧ dom settings = list_to_set (lower <$> Settings.required_vars)
  end.
Proof.
  unfold Settings.get_settings. rewrite read_vars_spec. simpl app.
  destruct (filter (unset environ) Settings.required_vars) as [|m ms] eqn:Hf.
  - assert (Hset : Forall (λ var, ∃ value, value ≠ []
                                  ∧ environ !! var = Some value)
                     Settings.required_vars).
    { apply Forall_forall. intros var Hvar.
      destruct (environ !! var) as [[|c v]|] eqn:Hv.
      - exfalso. assert (Hin : var ∈ filter (unset environ) Settings.required_vars).
        { apply list_elem_of_filter. split; [|exact Hvar].
          unfold unset. rewrite Hv. reflexivity. }
        rewrite Hf in Hin. inversion Hin.
      - exists (c :: v). split; [discriminate|reflexivity].
      - exfalso. assert (Hin : var ∈ filter (unset environ) Settings.required_vars).
        { apply list_elem_of_filter. split; [|exact Hvar].
          unfold unset. rewrite Hv. reflexivity. }
        rewrite Hf in Hin. inversion Hin. }
    split.
    + unfold Settings.required_vars in *.
      apply Forall_cons in Hset as [(v1 & Hn1 & He1) Hset].
      apply Forall_cons in Hset as [(v2 & Hn2 & He2) Hset].
      apply Forall_cons in Hset as [(v3 & Hn3 & He3) Hset].
      apply Forall_cons in Hset as [(v4 & Hn4 & He4) _].
      cbn [foldl]. rewrite He1, He2, He3, He4.
      assert (Hlook : ∀ (k : str) (w : option str) (m : gmap str (option str)),
                <[k := w]> m !! k = Some w) by (intros; apply lookup_insert_eq).
      apply Forall_cons; split.
      { exists v1. split; [exact Hn1|]. split; [exact He1|].
        vm_compute (lower _).
        repeat (rewrite lookup_insert_ne by discriminate). apply Hlook. }
      apply Forall_cons; split.
      { exists v2. split; [exact Hn2|]. split; [exact He2|].
        vm_compute (lower _).
        repeat (rewrite lookup_insert_ne by discriminate). apply Hlook. }
      apply Forall_cons; split.
      { exists v3. split; [exact Hn3|]. split; [exact He3|].
        vm_compute (lower _).
        repeat (rewrite lookup_insert_ne by discriminate). apply Hlook. }
      apply Forall_cons; split; [|constructor].
      exists v4. split; [exact Hn4|]. split; [exact He4|]. apply Hlook.
    + unfold Settings.required_vars. cbn [foldl].
      rewrite !dom_insert_L, dom_empty_L.
      rewrite !fmap_cons, fmap_nil, !list_to_set_cons, list_to_set_nil.
      apply set_eq. intros k. rewrite !elem_of_union, !elem_of_singleton.
      rewrite elem_of_empty. tauto.
  - split; [reflexivity|discriminate].
Qed.

Example get_settings_samples :
  (∃ settings, Settings.get_settings full_environ = inr settings
               ∧ settings !! lit "copart_username" = Some (Some (lit "user")))
  ∧ Settings.get_settings (delete (lit "ANTHROPIC_API_KEY")
                             (<[lit "COPART_PASSWORD" := []]> full_environ))
    = inl [lit "ANTHROPIC_API_KEY"; lit "COPART_PASSWORD"].
Proof.
  split; [eexists; split|]; vm_compute; reflexivity.
Qed.

(** ** Browser: pagination *)

Lemma contains_spec (sub s : str) :
  Browser.contains sub s = true ↔ ∃ k, occurs_at sub s k.
Proof.
  unfold Browser.contains.
  destruct (find_first_occurrence sub s) as [[Hf Hno]|(k & Hf & Hocc & _)].
  - rewrite Hf. split; [intros H; discriminate H|].
    intros [k Hk]. destruct (Hno k Hk).
  - rewrite Hf. split; [intros _; exists k; exact Hocc|intros _; lia].
Qed.

(** X26.  [has_next_page] never raises, and answers [True] exactly when
    the next-page control is found, its [disabled] attribute is absent
    or empty, and its class attribute does not contain the text
    "disabled" anywhere.  [go_next_page] answers [True] exactly when
    that test passes and the delay and the wait for the page return;
    whether the click itself succeeded plays no part. *)
Theorem pagination_spec (q : result (option Browser.element))
    (click : result bool) (delay wait : result unit) :
  (Browser.has_next_page q = true
   ↔ ∃ el d cls,
       q = Ok (Some el)
       ∧ Browser.get_disabled el = Ok d ∧ truthy d = false
       ∧ Browser.get_class el = Ok cls
       ∧ ∀ c k, cls = Some c → ¬ occurs_at (lit "disabled") c k)
  ∧ (Browser.go_next_page q click delay wait = Ok true
     ↔ Browser.has_next_page q = true
       ∧ (∃ b, click = Ok b) ∧ delay = Ok tt ∧ wait = Ok tt).
Proof.
  split.
  - unfold Browser.has_next_page.
    destruct q as [[el|]|e].
    2,3: split; [discriminate|intros (el & d & cls & H & _); discriminate H].
    destruct (Browser.get_disabled el) as [d|e] eqn:Hd.
    2: { split; [discriminate|].
         intros (el' & d & cls & H & Hd' & _). injection H as <-. congruence. }
    destruct (Browser.get_class el) as [cls|e] eqn:Hc.
    2: { split; [discriminate|].
         intros (el' & d' & cls & H & _ & _ & Hc' & _). injection H as <-.
         congruence. }
    cbv zeta. rewrite andb_true_iff, !negb_true_iff. split.
    + intros [Ht Hcont]. exists el, d, cls.
      split; [reflexivity|]. split; [exact Hd|]. split; [exact Ht|].
      split; [exact Hc|]. intros c k -> Hocc.
      assert (Hex : Browser.contains (lit "disabled")
                      match c with [] => [] | a :: s => a :: s end = true).
      { apply contains_spec. exists k. destruct c; exact Hocc. }
      congruence.
    + intros (el' & d' & cls' & H & Hd' & Ht & Hc' & Hno).
      injection H as <-. rewrite Hd in Hd'. injection Hd' as <-.
      rewrite Hc in Hc'. injection Hc' as <-.
      split; [exact Ht|].
      destruct (Browser.contains (lit "disabled") _) eqn:Hcont; [|reflexivity].
      apply contains_spec in Hcont as [k Hk].
      destruct cls as [[|a s]|].
      * destruct Hk as [Hk1 Hk2]. simpl in Hk1.
        replace k with O in Hk2 by lia. discriminate Hk2.
      * exfalso. exact (Hno (a :: s) k eq_refl Hk).
      * destruct Hk as [Hk1 Hk2]. simpl in Hk1.
        replace k with O in Hk2 by lia. discriminate Hk2.
  - unfold Browser.go_next_page.
    destruct (Browser.has_next_page q); simpl.
    2: { split; [discriminate|intros [H _]; discriminate H]. }
    destruct click as [b|e].
    2: { destruct (is_Exception e);
           (split; [discriminate|intros (_ & [b Hb] & _); discriminate Hb]). }
    destruct delay as [[]|e].
    2: { destruct (is_Exception e);
           (split; [discriminate|intros (_ & _ & H & _); discriminate H]). }
    destruct wait as [[]|e].
    2: { destruct (is_Exception e);
           (split; [discriminate|intros (_ & _ & _ & H); discriminate H]). }
    split; [|reflexivity]. intros _. eauto.
Qed.

(** A control marked only by a class such as "btn not-disabled" reads as
    exhausted; one with an empty [disabled] attribute reads as usable,
    and a failed click still reports the page as advanced. *)
Example pagination_samples :
  Browser.has_next_page
    (Ok (Some {| Browser.get_disabled := Ok None;
                 Browser.get_class := Ok (Some (lit "btn not-disabled")) |}))
    = false
  ∧ Browser.has_next_page
      (Ok (Some {| Browser.get_disabled := Ok (Some []);
                   Browser.get_class := Ok None |})) = true
  ∧ Browser.has_next_page (Raise KeyboardInterrupt) = false
  ∧ Browser.go_next_page
      (Ok (Some {| Browser.get_disabled := Ok None;
                   Browser.get_class := Ok (Some (lit "next")) |}))
      (Ok false) (Ok tt) (Ok tt) = Ok true.
Proof. vm_compute. repeat split. Qed.

(** X27.  Once login and search have succeeded, and provided
    [complete_run] and the two close calls themselves return, every way
    the page loop can end finalizes the run exactly once before the
    releases: completed on normal exit, interrupted on
    [KeyboardInterrupt], failed on an [Exception].  The only other
    outcome is a cancellation of the coroutine, which no handler
    catches and which leaves the run unfinalized. *)
Theorem search_finalizes_once_when_set_up (E : Main.env) (site : str)
    (criteria : SearchCriteria.t) (max_pages : Z) (st : state) :
  Main.settings E = Ok tt →
  SearchCriteria.init (Main.now_year E) criteria = Ok criteria →
  Main.connect E = Ok tt → Main.fault_start_run E = None →
  Main.browser_start E = Ok tt → Main.login E = Ok true →
  Main.save_cookies E = Ok tt → Main.search E = Ok true →
  Main.fault_complete_run E = None →
  Main.fault_complete_run_handler E = None →
  Main.browser_close E = Ok tt → Main.storage_close E = Ok tt →
  ∃ r s',
    Main._search E site criteria max_pages (Main.initial st) = (r, s')
    ∧ (finalized_once (Main.trace s')
       ∨ (r = Raise CancelledError
          ∧ Main.trace s' = [Main.RunStarted (runs_id_seq st);
                             Main.BrowserClosed; Main.StorageClosed])).
Proof. apply search_finalized_once_after_setup. Qed.

(** The uneventful world passes every condition of the setup, and its
    run over two pages is finalized once. *)
Lemma search_finalizes_once_when_set_up_witness :
  ∃ r s',
    Main._search calm (lit "copart") honda 2 (Main.initial empty_state) = (r, s')
    ∧ (finalized_once (Main.trace s')
       ∨ (r = Raise CancelledError
          ∧ Main.trace s' = [Main.RunStarted 1; Main.BrowserClosed;
                             Main.StorageClosed])).
Proof.
  exact (search_finalizes_once_when_set_up calm (lit "copart") honda 2
           empty_state eq_refl eq_refl eq_refl eq_refl eq_refl eq_refl eq_refl
           eq_refl eq_refl eq_refl eq_refl eq_refl).
Defined.
